(** * The user notification screen ([src/app/userapp/notificationpage.tsx])

    A shallow embedding of the [UserNotificationPage] component: its
    [useState]/[useRef] cells, its handlers and effects, and the promises
    they leave in flight.  Every [await] of the source splits a function in
    two: the part that runs when the function is called, and a continuation
    ([..._resume]) that runs when the awaited promise settles.  The values a
    continuation reads from its closure ([userEmail], [previousCount],
    [notifications]) are stored in the pending task, as the JavaScript
    closure stores them; [soundRef.current] is a ref and is read from the
    live state.

    A handler called by the user runs in the closure of the latest render,
    so it captures the state as it is when the handler is called.  The
    remote store changes when a pending update or delete settles.  The
    deletes of one [Promise.all] settle in one step of the model. *)

From stdpp Require Import gmap strings list fin_maps sorting.
From Stdlib Require Import ZArith.

Local Open Scope string_scope.
Local Open Scope list_scope.

(** ** Data model *)

(** The attributes of a document of the notifications collection that the
    screen reads: [userEmail], [description], [isRead], [createdAt], and
    the system attribute [$createdAt] shown by [renderItem]. *)
Module Doc.
Record t := mk {
  userEmail : string;
  description : string;
  isRead : bool;
  createdAt : Z;
  sys_createdAt : Z
}.

(** The data object of an update: the attributes it names, each with its
    new value. *)
Record data := {
  set_userEmail : option string;
  set_description : option string;
  set_isRead : option bool;
  set_createdAt : option Z
}.

Global Instance data_eq_dec : EqDecision data.
Proof. solve_decision. Defined.

(** The object [{ isRead: true }] that [markAsRead] sends. *)
Definition isRead_true : data :=
  {| set_userEmail := None; set_description := None;
     set_isRead := Some true; set_createdAt := None |}.

(** A document after an update with the data [p]: the attributes [p] names
    take their new value, the others keep theirs. *)
Definition update (p : data) (d : t) : t :=
  {| userEmail := default (userEmail d) (set_userEmail p);
     description := default (description d) (set_description p);
     isRead := default (isRead d) (set_isRead p);
     createdAt := default (createdAt d) (set_createdAt p);
     sys_createdAt := sys_createdAt d |}.
End Doc.

(** A document as the client receives it: [$id] with its attributes. *)
Abbreviation Document := (string * Doc.t)%type.

Definition doc_id (d : Document) : string := d.1.

(** ** The remote document store *)

Module Backend.

(** The hosted document store behind [databases] is not part of the
    repository.  It holds the notifications collection (the one database
    and collection identifier the screen uses) as a finite map from the
    store-assigned identifier to the record.  A call on an identifier the
    store does not hold is rejected, and so is a call whose request fails
    ([ok = false]); this screen is the only writer. *)

Definition newer_first (a b : Document) : Prop :=
  (Doc.createdAt b.2 <= Doc.createdAt a.2)%Z.

Definition owned_by (email : string) (d : Document) : Prop :=
  Doc.userEmail d.2 = email.

Global Instance newer_first_dec a b : Decision (newer_first a b).
Proof. unfold newer_first. apply _. Defined.

Global Instance owned_by_dec email d : Decision (owned_by email d).
Proof. unfold owned_by. apply _. Defined.

(** Modelled from the spec: the list call of the remote document store,
    for the two queries the screen sends.  It returns the documents whose
    owning email equals the given value, sorted by creation time
    descending. *)
Definition listDocuments (s : gmap string Doc.t) (email : string)
  : list Document :=
  merge_sort newer_first (filter (owned_by email) (map_to_list s)).

(** Modelled from the spec: the update call of the remote document store.
    It sets the attributes named by the data on the record with the given
    identifier. *)
Definition updateDocument (ok : bool) (id : string) (data : Doc.data)
    (s : gmap string Doc.t) : bool * gmap string Doc.t :=
  match s !! id with
  | Some d => if ok then (true, <[id := Doc.update data d]> s) else (false, s)
  | None => (false, s)
  end.

(** Modelled from the spec: the delete call of the remote document store.
    It removes the record with the given identifier. *)
Definition deleteDocument (ok : bool) (id : string) (s : gmap string Doc.t)
  : bool * gmap string Doc.t :=
  match s !! id with
  | Some _ => if ok then (true, delete id s) else (false, s)
  | None => (false, s)
  end.

(** The delete calls of one [Promise.all], settled one after the other;
    the result lists which of them were fulfilled. *)
Fixpoint deleteDocuments (calls : list (string * bool)) (s : gmap string Doc.t)
  : list bool * gmap string Doc.t :=
  match calls with
  | [] => ([], s)
  | (id, ok) :: rest =>
      let '(r, s1) := deleteDocument ok id s in
      let '(rs, s2) := deleteDocuments rest s1 in
      (r :: rs, s2)
  end.

End Backend.

(** ** Observable effects *)

Inductive FeedbackType := Success | Warning.

Inductive Event :=
| Alert (title message : string)          (* Alert.alert *)
| Haptic (k : FeedbackType)               (* Haptics.notificationAsync *)
| ConsoleLog (message : string)           (* console.log *)
| CreateAsync                             (* Audio.Sound.createAsync *)
| ReplayAsync                             (* soundRef.current.replayAsync *)
| UnloadAsync                             (* soundRef.current.unloadAsync *)
| AddListener                             (* addNotificationReceivedListener *)
| RemoveListener                          (* subscription.remove *)
| AccountGet                              (* account.get *)
| ListDocuments (email : string)          (* databases.listDocuments *)
| UpdateDocument (id : string) (data : Doc.data) (* databases.updateDocument *)
| DeleteDocument (id : string)            (* databases.deleteDocument *)
| GetPermissions                          (* Notifications.getPermissionsAsync *)
| RequestPermissions                      (* Notifications.requestPermissionsAsync *)
| GetExpoPushToken.                       (* Notifications.getExpoPushTokenAsync *)

Global Instance FeedbackType_eq_dec : EqDecision FeedbackType.
Proof. solve_decision. Defined.

Global Instance Event_eq_dec : EqDecision Event.
Proof. solve_decision. Defined.

(** How an awaited promise settles. *)
Inductive Settle (A : Type) :=
| Resolves (a : A)
| Rejects.
Arguments Resolves {A} a.
Arguments Rejects {A}.

(** ** Push registration (the helper below the component) *)

Inductive PermissionStatus := granted | denied | undetermined.

Global Instance PermissionStatus_eq_dec : EqDecision PermissionStatus.
Proof. solve_decision. Defined.

(** What the device answers to the calls of
    [registerForPushNotificationsAsync]. *)
Record PushEnv := {
  isDevice : bool;
  getPermissionsAsync : Settle PermissionStatus;
  requestPermissionsAsync : Settle PermissionStatus;
  getExpoPushTokenAsync : Settle string
}.

Definition registerForPushNotificationsAsync (env : PushEnv)
  : Settle (option string) * list Event :=
  if isDevice env then
    match getPermissionsAsync env with
    | Rejects => (Rejects, [GetPermissions])
    | Resolves existingStatus =>
        let requested :=
          if decide (existingStatus = granted)
          then (Resolves existingStatus, [])
          else (requestPermissionsAsync env, [RequestPermissions]) in
        match requested.1 with
        | Rejects => (Rejects, GetPermissions :: requested.2)
        | Resolves finalStatus =>
            if decide (finalStatus = granted) then
              match getExpoPushTokenAsync env with
              | Rejects =>
                  (Rejects, GetPermissions :: requested.2 ++ [GetExpoPushToken])
              | Resolves token =>
                  (Resolves (Some token),
                   GetPermissions :: requested.2 ++ [GetExpoPushToken])
              end
            else
              (Resolves None,
               GetPermissions :: requested.2 ++
               [Alert "Permission required" "Enable notifications in settings."])
        end
    end
  else
    (Resolves None,
     [Alert "Device error" "Must use physical device for push notifications."]).

(** ** Component state and the world around it *)

Inductive Sound := NotificationMp3.

(** The [useState] cells and the [useRef] cell, with their source names. *)
Record State := {
  notifications : list Document;
  refreshing : bool;
  previousCount : nat;
  userEmail : string;
  soundRef : option Sound;
  expoPushToken : option string
}.

(** A promise in flight, with what its continuation captured. *)
Inductive Task :=
| AwaitCreateAsync
| AwaitRegister
| AwaitAccountGet (previousCount : nat)
| AwaitListDocuments (email : string) (previousCount : nat)
| AwaitReplayAsync
| AwaitUpdateDocument (id : string) (userEmail : string) (previousCount : nat)
| AwaitConfirm (notifications : list Document) (userEmail : string)
               (previousCount : nat)
| AwaitDeleteAll (ids : list string) (userEmail : string) (previousCount : nat).

Record World := {
  comp : State;
  store : gmap string Doc.t;
  subscribed : bool;
  mounted : bool;
  pending : list Task;
  trace : list Event
}.

Definition with_comp (f : State → State) (w : World) : World :=
  {| comp := f (comp w); store := store w; subscribed := subscribed w;
     mounted := mounted w; pending := pending w; trace := trace w |}.

Definition with_store (s : gmap string Doc.t) (w : World) : World :=
  {| comp := comp w; store := s; subscribed := subscribed w;
     mounted := mounted w; pending := pending w; trace := trace w |}.

Definition with_subscribed (b : bool) (w : World) : World :=
  {| comp := comp w; store := store w; subscribed := b;
     mounted := mounted w; pending := pending w; trace := trace w |}.

Definition with_mounted (b : bool) (w : World) : World :=
  {| comp := comp w; store := store w; subscribed := subscribed w;
     mounted := b; pending := pending w; trace := trace w |}.

Definition with_pending (p : list Task) (w : World) : World :=
  {| comp := comp w; store := store w; subscribed := subscribed w;
     mounted := mounted w; pending := p; trace := trace w |}.

Definition with_trace (t : list Event) (w : World) : World :=
  {| comp := comp w; store := store w; subscribed := subscribed w;
     mounted := mounted w; pending := pending w; trace := t |}.

(** ** A state monad over the world *)

Definition M (A : Type) : Type := World → A * World.

Global Instance M_ret : MRet M := λ A a w, (a, w).
Global Instance M_bind : MBind M := λ A B f m w, let '(a, w1) := m w in f a w1.

Definition exec {A} (m : M A) (w : World) : World := (m w).2.

Definition gets {A} (f : World → A) : M A := λ w, (f w, w).
Definition modify (f : World → World) : M unit := λ w, (tt, f w).

Definition emit (e : Event) : M unit :=
  modify (λ w, with_trace (trace w ++ [e]) w).
Definition emits (es : list Event) : M unit :=
  modify (λ w, with_trace (trace w ++ es) w).
Definition spawn (t : Task) : M unit :=
  modify (λ w, with_pending (pending w ++ [t]) w).
Definition skip : M unit := mret tt.

Definition setNotifications (l : list Document) : M unit :=
  modify (with_comp (λ c,
    {| notifications := l; refreshing := refreshing c;
       previousCount := previousCount c; userEmail := userEmail c;
       soundRef := soundRef c; expoPushToken := expoPushToken c |})).

Definition setRefreshing (b : bool) : M unit :=
  modify (with_comp (λ c,
    {| notifications := notifications c; refreshing := b;
       previousCount := previousCount c; userEmail := userEmail c;
       soundRef := soundRef c; expoPushToken := expoPushToken c |})).

Definition setPreviousCount (n : nat) : M unit :=
  modify (with_comp (λ c,
    {| notifications := notifications c; refreshing := refreshing c;
       previousCount := n; userEmail := userEmail c;
       soundRef := soundRef c; expoPushToken := expoPushToken c |})).

Definition setUserEmail (e : string) : M unit :=
  modify (with_comp (λ c,
    {| notifications := notifications c; refreshing := refreshing c;
       previousCount := previousCount c; userEmail := e;
       soundRef := soundRef c; expoPushToken := expoPushToken c |})).

Definition setSoundRef (s : option Sound) : M unit :=
  modify (with_comp (λ c,
    {| notifications := notifications c; refreshing := refreshing c;
       previousCount := previousCount c; userEmail := userEmail c;
       soundRef := s; expoPushToken := expoPushToken c |})).

Definition setExpoPushToken (t : option string) : M unit :=
  modify (with_comp (λ c,
    {| notifications := notifications c; refreshing := refreshing c;
       previousCount := previousCount c; userEmail := userEmail c;
       soundRef := soundRef c; expoPushToken := t |})).

(** The remote calls, settled against the store of the world. *)
Definition remote_update (ok : bool) (id : string) (data : Doc.data) : M bool :=
  λ w, let '(r, s) := Backend.updateDocument ok id data (store w) in
       (r, with_store s w).

Definition remote_delete_all (calls : list (string * bool)) : M (list bool) :=
  λ w, let '(rs, s) := Backend.deleteDocuments calls (store w) in
       (rs, with_store s w).

Definition remote_list (ok : bool) (email : string)
  : M (Settle (list Document)) :=
  gets (λ w, if ok then Resolves (Backend.listDocuments (store w) email)
             else Rejects).

(** ** The component's functions *)

(** [playNotificationSound]: with a sound in [soundRef.current] the replay
    is started and awaited, and the haptic follows once it resolves;
    without one the haptic fires at once. *)
Definition playNotificationSound : M unit :=
  current ← gets (λ w, soundRef (comp w));
  match current with
  | Some _ => emit ReplayAsync ;; spawn AwaitReplayAsync
  | None => emit (Haptic Success)
  end.

Definition playNotificationSound_resume (ok : bool) : M unit :=
  if ok then emit (Haptic Success)
  else emit (ConsoleLog "Error playing sound").

(** [fetchNotifications(email)], in the closure of a render whose
    [previousCount] is the first argument. *)
Definition fetchNotifications (previousCount : nat) (email : string) : M unit :=
  emit (ListDocuments email) ;;
  spawn (AwaitListDocuments email previousCount).

Definition unread (doc : Document) : bool := negb (Doc.isRead doc.2).

Definition fetchNotifications_resume (previousCount : nat) (email : string)
    (ok : bool) : M unit :=
  res ← remote_list ok email;
  match res with
  | Resolves documents =>
      let newNotifications := List.filter unread documents in
      (if (previousCount <? length newNotifications)%nat
       then playNotificationSound else skip) ;;
      setNotifications newNotifications ;;
      setPreviousCount (length newNotifications)
  | Rejects => emit (Alert "Error" "Failed to fetch notifications")
  end ;;
  setRefreshing false.

(** [markAsRead(id)], called from the [Dismiss] button of the current
    render. *)
Definition markAsRead (id : string) : M unit :=
  c ← gets comp;
  emit (Haptic Success) ;;
  emit (UpdateDocument id Doc.isRead_true) ;;
  spawn (AwaitUpdateDocument id (userEmail c) (previousCount c)).

Definition markAsRead_resume (id userEmail : string) (previousCount : nat)
    (ok : bool) : M unit :=
  updated ← remote_update ok id Doc.isRead_true;
  if updated : bool then fetchNotifications previousCount userEmail
  else emit (Alert "Error" "Failed to mark as read").

Definition onRefresh : M unit :=
  c ← gets comp;
  setRefreshing true ;;
  if decide (userEmail c = "") then skip
  else fetchNotifications (previousCount c) (userEmail c).

(** [getUserAndFetch], the third effect. *)
Definition getUserAndFetch : M unit :=
  c ← gets comp;
  emit AccountGet ;;
  spawn (AwaitAccountGet (previousCount c)).

Definition getUserAndFetch_resume (previousCount : nat)
    (user : Settle string) : M unit :=
  match user with
  | Resolves email => setUserEmail email ;; fetchNotifications previousCount email
  | Rejects => emit (Alert "Error" "Failed to get user data")
  end.

(** [deleteAllNotifications] opens the confirmation dialog; its [Delete]
    button runs [deleteAll_onPress] on the list the dialog captured. *)
Definition deleteAllNotifications : M unit :=
  c ← gets comp;
  emit (Alert "Delete All Notifications"
              "Are you sure you want to delete all unread notifications?") ;;
  spawn (AwaitConfirm (notifications c) (userEmail c) (previousCount c)).

Definition deleteAll_onPress (notifications : list Document)
    (userEmail : string) (previousCount : nat) : M unit :=
  emits ((λ notification, DeleteDocument (doc_id notification)) <$> notifications) ;;
  spawn (AwaitDeleteAll (fmap doc_id notifications) userEmail previousCount).

Definition deleteAll_resume (ids : list string) (userEmail : string)
    (previousCount : nat) (oks : list bool) : M unit :=
  results ← remote_delete_all (zip ids oks);
  if forallb id results
  then emit (Haptic Warning) ;; fetchNotifications previousCount userEmail
  else emit (Alert "Error" "Failed to delete notifications").

(** The first effect and its cleanup. *)
Definition loadSound : M unit :=
  emit CreateAsync ;; spawn AwaitCreateAsync.

Definition loadSound_resume (ok : bool) : M unit :=
  if ok then setSoundRef (Some NotificationMp3) else skip.

Definition sound_cleanup : M unit :=
  current ← gets (λ w, soundRef (comp w));
  match current with
  | Some _ => emit UnloadAsync
  | None => skip
  end.

(** The second effect and its cleanup. *)
Definition push_effect : M unit :=
  spawn AwaitRegister ;;
  emit AddListener ;;
  modify (with_subscribed true).

Definition push_effect_resume (env : PushEnv) : M unit :=
  let '(result, events) := registerForPushNotificationsAsync env in
  emits events ;;
  match result with
  | Resolves (Some token) =>
      if decide (token = "") then skip
      else setExpoPushToken (Some token) ;; emit (ConsoleLog "Expo Push Token:")
  | _ => skip
  end.

Definition on_notification_received : M unit :=
  emit (ConsoleLog "Notification received:") ;;
  playNotificationSound.

Definition push_cleanup : M unit :=
  emit RemoveListener ;;
  modify (with_subscribed false).

(** ** The screen as a transition system *)

Definition initial_state : State :=
  {| notifications := []; refreshing := false; previousCount := 0;
     userEmail := ""; soundRef := None; expoPushToken := None |}.

Definition initial_world (s : gmap string Doc.t) : World :=
  {| comp := initial_state; store := s; subscribed := false;
     mounted := false; pending := []; trace := [] |}.

(** The three effects, in source order, after the first render. *)
Definition mount : M unit :=
  loadSound ;; push_effect ;; getUserAndFetch ;; modify (with_mounted true).

Definition unmount : M unit :=
  sound_cleanup ;; push_cleanup ;; modify (with_mounted false).

Inductive Button := Cancel | Delete.

(** What the environment hands to a continuation. *)
Inductive Outcome :=
| Fulfilled
| Rejected
| FulfilledUser (email : string)
| Registered (env : PushEnv)
| Settled (oks : list bool)
| Pressed (b : Button).

Definition resume (t : Task) (o : Outcome) : option (M unit) :=
  match t, o with
  | AwaitCreateAsync, Fulfilled => Some (loadSound_resume true)
  | AwaitCreateAsync, Rejected => Some (loadSound_resume false)
  | AwaitRegister, Registered env => Some (push_effect_resume env)
  | AwaitAccountGet n, FulfilledUser email =>
      Some (getUserAndFetch_resume n (Resolves email))
  | AwaitAccountGet n, Rejected => Some (getUserAndFetch_resume n Rejects)
  | AwaitListDocuments email n, Fulfilled =>
      Some (fetchNotifications_resume n email true)
  | AwaitListDocuments email n, Rejected =>
      Some (fetchNotifications_resume n email false)
  | AwaitReplayAsync, Fulfilled => Some (playNotificationSound_resume true)
  | AwaitReplayAsync, Rejected => Some (playNotificationSound_resume false)
  | AwaitUpdateDocument i email n, Fulfilled =>
      Some (markAsRead_resume i email n true)
  | AwaitUpdateDocument i email n, Rejected =>
      Some (markAsRead_resume i email n false)
  | AwaitConfirm l email n, Pressed Delete => Some (deleteAll_onPress l email n)
  | AwaitConfirm l email n, Pressed Cancel => Some skip
  | AwaitDeleteAll ids email n, Settled oks =>
      if decide (length oks = length ids)
      then Some (deleteAll_resume ids email n oks) else None
  | _, _ => None
  end.

Inductive Label :=
| PullToRefresh
| Dismiss (id : string)
| PressDeleteAll
| PushReceived
| Unmount
| Settle_task (i : nat) (o : Outcome).

(** One event of the event loop.  The buttons exist while the screen is
    mounted ([Dismiss] for a displayed row, the delete icon for a non-empty
    list); the listener runs while subscribed; a pending promise may settle
    at any time. *)
Definition step (l : Label) (w : World) : option World :=
  match l with
  | PullToRefresh =>
      if mounted w then Some (exec onRefresh w) else None
  | Dismiss i =>
      if mounted w && bool_decide (i ∈ fmap doc_id (notifications (comp w)))
      then Some (exec (markAsRead i) w) else None
  | PressDeleteAll =>
      if mounted w && (0 <? length (notifications (comp w)))%nat
      then Some (exec deleteAllNotifications w) else None
  | PushReceived =>
      if subscribed w then Some (exec on_notification_received w) else None
  | Unmount =>
      if mounted w then Some (exec unmount w) else None
  | Settle_task i o =>
      t ← pending w !! i;
      k ← resume t o;
      Some (exec k (with_pending (delete i (pending w)) w))
  end.

Fixpoint steps (ls : list Label) (w : World) : option World :=
  match ls with
  | [] => Some w
  | l :: rest => w1 ← step l w; steps rest w1
  end.

(** ** Reading a run *)

(** The events a run from [w] to [w'] added to the trace. *)
Definition emitted (w w' : World) : list Event :=
  drop (length (trace w)) (trace w').

(** The promises a run from [w] to [w'] left in flight. *)
Definition spawned (w w' : World) : list Task :=
  drop (length (pending w)) (pending w').

(** The start of a notification cue: the replay of a loaded sound, or the
    haptic when there is no sound to replay. *)
Definition is_cue (e : Event) : bool :=
  match e with
  | ReplayAsync | Haptic Success => true
  | _ => false
  end.

Definition count (f : Event → bool) (es : list Event) : nat :=
  length (List.filter f es).

Definition is_unload (e : Event) : bool :=
  match e with UnloadAsync => true | _ => false end.

Definition is_remove (e : Event) : bool :=
  match e with RemoveListener => true | _ => false end.

(** The unread records a fulfilled fetch for [email] finds in the store. *)
Definition fetched (w : World) (email : string) : list Document :=
  List.filter unread (Backend.listDocuments (store w) email).

(** ** What a step leaves alone *)

(** [changes w w'] says that from [w] to [w']
    the screen stays mounted or unmounted as it was, the trace only grows,
    and no sound is unloaded. *)
Definition changes (w w' : World) : Prop :=
  mounted w' = mounted w ∧
  ∃ es, trace w' = trace w ++ es ∧ count is_unload es = 0.

Definition is_fetch (t : Task) : bool :=
  match t with AwaitListDocuments _ _ => true | _ => false end.

(** The step settles a pending [listDocuments]. *)
Definition settles_fetch (l : Label) (w : World) : bool :=
  match l with
  | Settle_task i _ =>
      match pending w !! i with
      | Some t => is_fetch t
      | None => false
      end
  | _ => false
  end.

(** No step of the run [ls] from [w] settles a fetch. *)
Fixpoint no_fetch_settles (ls : list Label) (w : World) : Prop :=
  match ls with
  | [] => True
  | l :: rest =>
      settles_fetch l w = false ∧
      match step l w with
      | Some w1 => no_fetch_settles rest w1
      | None => True
      end
  end.

(** ** Statements about single operations *)

(** The cue of a fulfilled fetch, read against the count stored in the
    state at the moment the fetch is fulfilled: the cue starts once when the
    new unread count exceeds the stored count and not at all otherwise, and
    the new count is stored. *)
Definition cue_follows_stored_count (w : World) (email : string) (prev : nat)
  : Prop :=
  let w' := exec (fetchNotifications_resume prev email true) w in
  let n := length (fetched w email) in
  count is_cue (emitted w w') =
    (if (previousCount (comp w) <? n)%nat then 1 else 0) ∧
  previousCount (comp w') = n.

(** Permission is denied: the device is physical, the stored permission is
    not [granted], and the request does not grant it either. *)
Definition permission_denied (env : PushEnv) : Prop :=
  isDevice env = true ∧
  ∃ existingStatus status,
    getPermissionsAsync env = Resolves existingStatus ∧
    existingStatus ≠ granted ∧
    requestPermissionsAsync env = Resolves status ∧
    status ≠ granted.

Definition is_alert (e : Event) : bool :=
  match e with Alert _ _ => true | _ => false end.


(** ** Example worlds *)

Module Example.

Definition first : Doc.t :=
  {| Doc.userEmail := "u@x"; Doc.description := "first";
     Doc.isRead := false; Doc.createdAt := 10; Doc.sys_createdAt := 10 |}.

Definition second : Doc.t :=
  {| Doc.userEmail := "u@x"; Doc.description := "second";
     Doc.isRead := false; Doc.createdAt := 20; Doc.sys_createdAt := 20 |}.

Definition remote : gmap string Doc.t := <["a" := first]> {["b" := second]}.

(** The screen after its mount, the user lookup and the first fetch, all
    with the sound still loading: both records are displayed. *)
Definition loaded : World :=
  default (initial_world remote)
    (steps [Settle_task 2 (FulfilledUser "u@x"); Settle_task 2 Fulfilled]
           (exec mount (initial_world remote))).


(** The screen right after its mount, with no user known yet. *)
Definition fresh : World := exec mount (initial_world ∅).

(** A physical device whose user refuses the permission request. *)
Definition refusing : PushEnv :=
  {| isDevice := true;
     getPermissionsAsync := Resolves undetermined;
     requestPermissionsAsync := Resolves denied;
     getExpoPushTokenAsync := Resolves "ExponentPushToken[x]" |}.

End Example.

(** ** Runs of the screen *)

(** The worlds the screen can be in: those a run reaches from the mount
    over the store [s]. *)
Definition reachable (s : gmap string Doc.t) (w : World) : Prop :=
  ∃ ls, steps ls (exec mount (initial_world s)) = Some w.

(** The email a pending promise captured, if its closure holds one. *)
Definition task_email (t : Task) : option string :=
  match t with
  | AwaitListDocuments e _ | AwaitUpdateDocument _ e _
  | AwaitConfirm _ e _ | AwaitDeleteAll _ e _ => Some e
  | _ => None
  end.

Definition is_account (t : Task) : bool :=
  match t with AwaitAccountGet _ => true | _ => false end.

Definition is_delete_all (t : Task) : bool :=
  match t with AwaitDeleteAll _ _ _ => true | _ => false end.

Definition is_delete (e : Event) : bool :=
  match e with DeleteDocument _ => true | _ => false end.

Definition is_list (e : Event) : bool :=
  match e with ListDocuments _ => true | _ => false end.

Definition is_add (e : Event) : bool :=
  match e with AddListener => true | _ => false end.

Definition is_haptic (e : Event) : bool :=
  match e with Haptic _ => true | _ => false end.

(** The step presses the [Delete] button of the confirmation dialog. *)
Definition confirms_delete (l : Label) : bool :=
  match l with
  | Settle_task _ (Pressed Delete) => true
  | _ => false
  end.

(** What the screen may do to a record of the store: leave it, set its
    read flag, or delete it; a record the store does not hold stays
    absent. *)
Definition record_follows (before after : option Doc.t) : Prop :=
  match before with
  | None => after = None
  | Some d =>
      after = None ∨ after = Some d ∨
      after = Some (Doc.update Doc.isRead_true d)
  end.

Definition store_follows (s s' : gmap string Doc.t) : Prop :=
  ∀ j, record_follows (s !! j) (s' !! j).

(** ** The rendered screen *)

(** A card of the list, as [renderItem] builds it: the React key given by
    [keyExtractor], the description, the [$createdAt] value its footer
    formats, and the identifier its [Dismiss] button passes to
    [markAsRead]. *)
Record Card := {
  key : string;
  card_description : string;
  card_createdAt : Z;
  dismisses : string
}.

Inductive Body :=
| EmptyState
| FlatList (cards : list Card).

(** The parts of the returned tree that depend on the state: the delete
    icon of the header, the refresh control, and the body. *)
Record View := {
  delete_icon : bool;
  refresh_control : bool;
  body : Body
}.

Definition renderItem (item : Document) : Card :=
  {| key := doc_id item;
     card_description := Doc.description item.2;
     card_createdAt := Doc.sys_createdAt item.2;
     dismisses := doc_id item |}.

Definition render (st : State) : View :=
  {| delete_icon := (0 <? length (notifications st))%nat;
     refresh_control := refreshing st;
     body := if (length (notifications st) =? 0)%nat then EmptyState
             else FlatList (renderItem <$> notifications st) |}.

Definition cards (v : View) : list Card :=
  match body v with
  | EmptyState => []
  | FlatList l => l
  end.

(** The shape of a step: a handler run on the world, or a continuation run
    on the world without the settled promise. *)
Inductive step_shape (w : World) : Label → World → Prop :=
| shape_refresh :
    mounted w = true → step_shape w PullToRefresh (exec onRefresh w)
| shape_dismiss i :
    mounted w = true → i ∈ (doc_id <$> notifications (comp w)) →
    step_shape w (Dismiss i) (exec (markAsRead i) w)
| shape_press :
    mounted w = true → 0 < length (notifications (comp w)) →
    step_shape w PressDeleteAll (exec deleteAllNotifications w)
| shape_push :
    subscribed w = true →
    step_shape w PushReceived (exec on_notification_received w)
| shape_unmount :
    mounted w = true → step_shape w Unmount (exec unmount w)
| shape_settle i o t k :
    pending w !! i = Some t → resume t o = Some k →
    step_shape w (Settle_task i o)
      (exec k (with_pending (delete i (pending w)) w)).


(** The promises waiting for [account.get]. *)
Definition accounts (p : list Task) : nat := length (List.filter is_account p).

(** Ownership along a run.  The displayed records and the emails captured
    by the pending promises all belong to the stored email; and while the
    user lookup is pending (at most one is) the list is empty, no email is
    stored, and no promise has captured one. *)
Definition owned (w : World) : Prop :=
  Forall (λ d, Doc.userEmail d.2 = userEmail (comp w)) (notifications (comp w)) ∧
  Forall (λ t, ∀ e, task_email t = Some e → e = userEmail (comp w)) (pending w) ∧
  (accounts (pending w) ≤ 1)%nat ∧
  ((0 < accounts (pending w))%nat →
   notifications (comp w) = [] ∧ userEmail (comp w) = "" ∧
   Forall (λ t, task_email t = None) (pending w)).

(** The displayed list is the result of some fulfilled fetch, and the
    baseline is its length. *)
Definition list_shape (w : World) : Prop :=
  previousCount (comp w) = length (notifications (comp w)) ∧
  ∃ s e, notifications (comp w) =
         List.filter unread (Backend.listDocuments s e).


(** The lifecycle of the two resources along a run: the listener is
    subscribed exactly while the screen is mounted; it was added once and
    is removed once the screen is unmounted; no sound is unloaded while the
    screen is mounted, and at most one afterwards. *)
Definition lifecycle (w : World) : Prop :=
  subscribed w = mounted w ∧
  count is_add (trace w) = 1 ∧
  count is_remove (trace w) = (if mounted w then 0 else 1) ∧
  (count is_unload (trace w) ≤ (if mounted w then 0 else 1))%nat.




(** The events of a registration are the three permission calls and the
    two alerts. *)
Definition registration_event (e : Event) : Prop :=
  match e with
  | Alert _ _ | GetPermissions | RequestPermissions | GetExpoPushToken => True
  | _ => False
  end.


(** The permission is granted in the end: it was granted already, or the
    request grants it. *)
Definition finally_granted (env : PushEnv) : Prop :=
  getPermissionsAsync env = Resolves granted ∨
  ∃ existingStatus,
    getPermissionsAsync env = Resolves existingStatus ∧
    existingStatus ≠ granted ∧
    requestPermissionsAsync env = Resolves granted.

(** ** More example worlds *)

Module Scenario.

(** The record [a] has been dismissed on the loaded screen and the update
    has been fulfilled. *)
Definition dismissed : World :=
  default Example.loaded
    (steps [Dismiss "a"; Settle_task 2 Fulfilled] Example.loaded).

(** The loaded screen after a pull-to-refresh and its fetch. *)
Definition refreshed : World :=
  default Example.loaded
    (steps [PullToRefresh; Settle_task 2 Fulfilled] Example.loaded).


(** The sound is loaded and the first fetch is in flight. *)
Definition fetching : World :=
  default (initial_world Example.remote)
    (steps [Settle_task 0 Fulfilled; Settle_task 1 (FulfilledUser "u@x")]
           (exec mount (initial_world Example.remote))).


(** A physical device whose user grants the permission request. *)
Definition granting : PushEnv :=
  {| isDevice := true;
     getPermissionsAsync := Resolves undetermined;
     requestPermissionsAsync := Resolves granted;
     getExpoPushTokenAsync := Resolves "ExponentPushToken[x]" |}.

End Scenario.

(** * Properties *)

Ltac unfold_M :=
  repeat progress unfold exec, emitted, spawned,
    fetchNotifications_resume, fetchNotifications, playNotificationSound,
    playNotificationSound_resume, markAsRead, markAsRead_resume, onRefresh,
    getUserAndFetch, getUserAndFetch_resume, deleteAllNotifications,
    deleteAll_onPress, deleteAll_resume, loadSound, loadSound_resume,
    sound_cleanup, push_effect, push_effect_resume, push_cleanup,
    on_notification_received, mount, unmount,
    remote_list, remote_update, remote_delete_all,
    setNotifications, setRefreshing, setPreviousCount, setUserEmail,
    setSoundRef, setExpoPushToken, emit, emits, spawn, skip, gets, modify,
    mbind, M_bind, mret, M_ret in *.

Ltac trace_tail :=
  repeat rewrite <- (assoc_L (++));
  repeat rewrite drop_app_length;
  repeat rewrite app_nil_r.

Section list_facts.
Context {A : Type}.

Lemma filter_StronglySorted (R : relation A) (f : A → bool) (l : list A) :
  StronglySorted R l → StronglySorted R (List.filter f l).
Proof.
  induction 1 as [|x l Hl IH Hx]; simpl; [constructor|].
  destruct (f x); [|exact IH].
  constructor; [exact IH|].
  rewrite Forall_forall in Hx |- *.
  intros y Hy. apply Hx.
  rewrite list_elem_of_In in Hy |- *.
  apply List.filter_In in Hy. tauto.
Qed.

Lemma elem_of_List_filter (f : A → bool) (l : list A) (x : A) :
  x ∈ List.filter f l ↔ x ∈ l ∧ f x = true.
Proof. rewrite !list_elem_of_In. apply List.filter_In. Qed.

Lemma lookup_snoc_length (l : list A) (x : A) :
  (l ++ [x]) !! length l = Some x.
Proof. rewrite lookup_app_r by lia. by rewrite Nat.sub_diag. Qed.

Lemma delete_snoc_length (l : list A) (x : A) :
  delete (length l) (l ++ [x]) = l.
Proof.
  induction l as [|y l IH]; simpl; [done|].
  f_equal. exact IH.
Qed.
End list_facts.

(** ** The backend model *)

Global Instance newer_first_trans : Transitive Backend.newer_first.
Proof. unfold Backend.newer_first. intros a b c ??. lia. Qed.

Global Instance newer_first_total : Total Backend.newer_first.
Proof. unfold Backend.newer_first. intros a b. lia. Qed.

Lemma elem_of_listDocuments (s : gmap string Doc.t) (email : string)
    (d : Document) :
  d ∈ Backend.listDocuments s email ↔
  s !! d.1 = Some d.2 ∧ Doc.userEmail d.2 = email.
Proof.
  unfold Backend.listDocuments.
  rewrite merge_sort_Permutation, list_elem_of_filter.
  destruct d as [i r]. rewrite elem_of_map_to_list. simpl.
  unfold Backend.owned_by. simpl. tauto.
Qed.

Lemma listDocuments_sorted (s : gmap string Doc.t) (email : string) :
  StronglySorted Backend.newer_first (Backend.listDocuments s email).
Proof. apply StronglySorted_merge_sort; apply _. Qed.

Lemma listDocuments_NoDup (s : gmap string Doc.t) (email : string) :
  NoDup (fmap doc_id (Backend.listDocuments s email)).
Proof.
  unfold Backend.listDocuments.
  rewrite merge_sort_Permutation.
  assert (Hsub : sublist (filter (Backend.owned_by email) (map_to_list s))
                         (map_to_list s)) by apply sublist_filter.
  apply (sublist_NoDup _ ((map_to_list s).*1)); [apply NoDup_fst_map_to_list|].
  exact (fmap_sublist fst _ _ Hsub).
Qed.

Lemma elem_of_fetched (w : World) (email : string) (d : Document) :
  d ∈ fetched w email ↔
  store w !! d.1 = Some d.2 ∧ Doc.userEmail d.2 = email ∧ Doc.isRead d.2 = false.
Proof.
  unfold fetched. rewrite elem_of_List_filter, elem_of_listDocuments.
  unfold unread. rewrite negb_true_iff. tauto.
Qed.

(** ** Fetch *)

Lemma fetch_fulfilled_comp (w : World) (prev : nat) (email : string) :
  let w' := exec (fetchNotifications_resume prev email true) w in
  notifications (comp w') = fetched w email ∧
  previousCount (comp w') = length (fetched w email) ∧
  refreshing (comp w') = false ∧
  userEmail (comp w') = userEmail (comp w) ∧
  soundRef (comp w') = soundRef (comp w) ∧
  store w' = store w.
Proof.
  unfold_M. unfold fetched. simpl.
  destruct (Nat.ltb prev _); simpl; [|repeat split].
  destruct (soundRef (comp w)) eqn:E; simpl; rewrite ?E; repeat split.
Qed.

(** C1. After a fulfilled fetch for [email] the displayed list is exactly
    the returned documents whose read flag is false; every displayed
    document is owned by [email]; and the list is ordered by [createdAt],
    newest first. *)
Theorem fetch_displays_unread_newest_first
    (w : World) (prev : nat) (email : string) :
  let w' := exec (fetchNotifications_resume prev email true) w in
  notifications (comp w') =
    List.filter (λ doc, negb (Doc.isRead doc.2))
                (Backend.listDocuments (store w) email) ∧
  (∀ d, d ∈ notifications (comp w') ↔
        d ∈ Backend.listDocuments (store w) email ∧ Doc.isRead d.2 = false) ∧
  Forall (λ d, Doc.userEmail d.2 = email) (notifications (comp w')) ∧
  StronglySorted (λ a b, (Doc.createdAt b.2 <= Doc.createdAt a.2)%Z)
                 (notifications (comp w')).
Proof.
  intros w'.
  destruct (fetch_fulfilled_comp w prev email) as (Hn & _).
  fold w' in Hn. rewrite Hn. unfold fetched.
  split; [done|]. split; [|split].
  - intros d. rewrite elem_of_List_filter. unfold unread.
    by rewrite negb_true_iff.
  - rewrite Forall_forall. intros d Hd.
    apply elem_of_List_filter in Hd as [Hd _].
    by apply elem_of_listDocuments in Hd as [_ Hd].
  - apply filter_StronglySorted, listDocuments_sorted.
Qed.

(** C5. A fetch whose query is rejected reports the alert and leaves the
    list and the baseline as they were; and the refresh flag is cleared at
    the end of every fetch, fulfilled or rejected. *)
Theorem fetch_failure_alerts_and_clears_refreshing
    (w : World) (prev : nat) (email : string) :
  (∀ ok : bool,
     refreshing (comp (exec (fetchNotifications_resume prev email ok) w)) = false) ∧
  let w' := exec (fetchNotifications_resume prev email false) w in
  emitted w w' = [Alert "Error" "Failed to fetch notifications"] ∧
  spawned w w' = [] ∧
  notifications (comp w') = notifications (comp w) ∧
  previousCount (comp w') = previousCount (comp w) ∧
  store w' = store w.
Proof.
  split.
  - intros [|]; [apply (fetch_fulfilled_comp w prev email)|].
    unfold_M. reflexivity.
  - unfold_M. simpl. trace_tail. rewrite drop_all. repeat split.
Qed.

(** ** The notification cue *)

Lemma fetch_fulfilled_effects (w : World) (prev : nat) (email : string) :
  let w' := exec (fetchNotifications_resume prev email true) w in
  let n := length (fetched w email) in
  emitted w w' =
    (if (prev <? n)%nat
     then match soundRef (comp w) with
          | Some _ => [ReplayAsync]
          | None => [Haptic Success]
          end
     else []) ∧
  spawned w w' =
    (if (prev <? n)%nat
     then match soundRef (comp w) with
          | Some _ => [AwaitReplayAsync]
          | None => []
          end
     else []).
Proof.
  unfold_M. unfold fetched. simpl.
  destruct (Nat.ltb prev _); simpl.
  - destruct (soundRef (comp w)); simpl; trace_tail; rewrite ?drop_all; done.
  - rewrite !drop_all. done.
Qed.

Lemma fetch_cue_count (w : World) (prev : nat) (email : string) :
  let w' := exec (fetchNotifications_resume prev email true) w in
  let n := length (fetched w email) in
  count is_cue (emitted w w') = (if (prev <? n)%nat then 1 else 0) ∧
  previousCount (comp w') = n.
Proof.
  intros w' n.
  destruct (fetch_fulfilled_effects w prev email) as [He _].
  destruct (fetch_fulfilled_comp w prev email) as (_ & Hp & _).
  fold w' n in He, Hp. rewrite He. split; [|exact Hp].
  destruct (prev <? n)%nat; [|done].
  by destruct (soundRef (comp w)).
Qed.

(** With the closure up to date the captured count is the stored one. *)
Lemma fetch_cue_follows_fresh_count (w : World) (email : string) :
  cue_follows_stored_count w email (previousCount (comp w)).
Proof. exact (fetch_cue_count w (previousCount (comp w)) email). Qed.


(** ** Pull to refresh *)

(** C8. A pull-to-refresh sets the refresh flag, and issues a fetch for the
    stored email exactly when that email is not empty. *)
Theorem refresh_sets_flag_and_fetches_known_user (w : World) :
  let w' := exec onRefresh w in
  let email := userEmail (comp w) in
  refreshing (comp w') = true ∧
  emitted w w' = (if decide (email = "") then [] else [ListDocuments email]) ∧
  spawned w w' =
    (if decide (email = "") then []
     else [AwaitListDocuments email (previousCount (comp w))]) ∧
  ((∃ e, ListDocuments e ∈ emitted w w') ↔ email ≠ "") ∧
  ((∃ e n, AwaitListDocuments e n ∈ spawned w w') ↔ email ≠ "").
Proof.
  unfold_M. simpl.
  destruct (decide (userEmail (comp w) = "")) as [He|He]; simpl.
  - rewrite !drop_all. repeat split; try done.
    + intros (e & H). by apply elem_of_nil in H.
    + intros (e & n & H). by apply elem_of_nil in H.
  - trace_tail. repeat split; try done.
    + intros _. eexists. apply list_elem_of_singleton. reflexivity.
    + intros _. do 2 eexists. apply list_elem_of_singleton. reflexivity.
Qed.

(** ** Mark as read *)

(** C9. [markAsRead] fires the success haptic before it sends the update,
    so the haptic is in the trace also when the update then fails and the
    error alert follows. *)
Theorem haptic_precedes_update
    (w : World) (id email : string) (prev : nat) (ok : bool) :
  let w1 := exec (markAsRead id) w in
  let w2 := exec (markAsRead_resume id email prev ok) w1 in
  emitted w w1 = [Haptic Success; UpdateDocument id Doc.isRead_true] ∧
  spawned w w1 =
    [AwaitUpdateDocument id (userEmail (comp w)) (previousCount (comp w))] ∧
  emitted w w2 =
    [Haptic Success; UpdateDocument id Doc.isRead_true] ++
    (if (Backend.updateDocument ok id Doc.isRead_true (store w)).1
     then [ListDocuments email]
     else [Alert "Error" "Failed to mark as read"]) ∧
  (Backend.updateDocument false id Doc.isRead_true (store w)).1 = false.
Proof.
  unfold_M. simpl. trace_tail. repeat split.
  - unfold Backend.updateDocument.
    destruct (store w !! id); [destruct ok|]; simpl; trace_tail; done.
  - unfold Backend.updateDocument. by destruct (store w !! id).
Qed.

(** ** Push registration *)

(** C6. When the device is not a physical device, or permission is denied,
    the registration resolves (it does not reject) with a null token and
    shows exactly one alert; its continuation in the component then changes
    nothing but the trace, so the screen goes on as before. *)
Theorem registration_denied_gives_null_token (env : PushEnv) (w : World) :
  isDevice env = false ∨ permission_denied env →
  (registerForPushNotificationsAsync env).1 = Resolves None ∧
  count is_alert (registerForPushNotificationsAsync env).2 = 1 ∧
  let w' := exec (push_effect_resume env) w in
  comp w' = comp w ∧ pending w' = pending w ∧ store w' = store w ∧
  mounted w' = mounted w ∧ subscribed w' = subscribed w ∧
  emitted w w' = (registerForPushNotificationsAsync env).2.
Proof.
  intros H.
  assert (Hr : (registerForPushNotificationsAsync env).1 = Resolves None ∧
               count is_alert (registerForPushNotificationsAsync env).2 = 1).
  { unfold registerForPushNotificationsAsync.
    destruct H as [H|(H & s1 & s2 & H1 & Hn1 & H2 & Hn2)]; rewrite H; [done|].
    rewrite H1. destruct (decide (s1 = granted)) as [?|_]; [done|].
    simpl. rewrite H2. destruct (decide (s2 = granted)) as [?|_]; done. }
  destruct Hr as [Hr Hc]. split; [done|]. split; [done|].
  unfold_M. destruct (registerForPushNotificationsAsync env) as [r evs].
  simpl in Hr. subst r. simpl. trace_tail. destruct w; done.
Qed.

Lemma registration_denied_gives_null_token_witness :
  (registerForPushNotificationsAsync Example.refusing).1 = Resolves None ∧
  count is_alert (registerForPushNotificationsAsync Example.refusing).2 = 1.
Proof.
  destruct (registration_denied_gives_null_token Example.refusing Example.fresh)
    as (H1 & H2 & _); [|exact (conj H1 H2)].
  right. split; [reflexivity|].
  exists undetermined, denied. repeat split; discriminate.
Defined.

(** ** Stepping the screen *)

Lemma count_app (f : Event → bool) (a b : list Event) :
  count f (a ++ b) = count f a + count f b.
Proof. unfold count. by rewrite List.filter_app, length_app. Qed.

(** Settling the promise spawned last. *)
Lemma step_settle_spawned (w : World) (p : list Task) (t : Task)
    (o : Outcome) (k : M unit) :
  pending w = p ++ [t] →
  resume t o = Some k →
  step (Settle_task (length p) o) w = Some (exec k (with_pending p w)).
Proof.
  intros Hp Hr. unfold step.
  rewrite Hp, lookup_snoc_length. simpl. rewrite Hr. simpl.
  by rewrite delete_snoc_length.
Qed.

Ltac solve_changes :=
  split; [reflexivity|];
  eexists; split;
  [simpl; repeat rewrite <- (assoc_L (++)); try reflexivity;
   symmetry; apply app_nil_r
  |try reflexivity].

Lemma count_unload_deletes (l : list Document) :
  count is_unload ((λ n, DeleteDocument (doc_id n)) <$> l) = 0.
Proof. induction l as [|d l IH]; [done|exact IH]. Qed.

Lemma count_unload_registration (env : PushEnv) :
  count is_unload (registerForPushNotificationsAsync env).2 = 0.
Proof.
  unfold registerForPushNotificationsAsync.
  repeat (case_match; simpl; try done).
Qed.

Lemma resume_changes (t : Task) (o : Outcome) (k : M unit) (w : World) :
  resume t o = Some k →
  changes w (exec k w) ∧
  (is_fetch t = false → refreshing (comp (exec k w)) = refreshing (comp w)).
Proof.
  intros Hr.
  destruct t, o as [| | |env|oks|[|]]; simpl in Hr;
    try discriminate Hr; try case_decide; try discriminate Hr;
    injection Hr as <-; unfold_M; simpl.
  - split; [solve_changes|done].
  - split; [solve_changes|done].
  - pose proof (count_unload_registration env) as Hc.
    destruct (registerForPushNotificationsAsync env) as [r es]. simpl in Hc.
    destruct r as [[tok|]|]; try case_decide; simpl;
      (split; [|done]); (split; [reflexivity|]); eexists;
      (split; [simpl; repeat rewrite <- (assoc_L (++)); reflexivity|]);
      rewrite ?count_app, Hc; reflexivity.
  - split; [solve_changes|done].
  - split; [solve_changes|done].
  - split; [|done].
    destruct (Nat.ltb _ _); simpl; [|solve_changes].
    destruct (soundRef (comp w)); simpl; solve_changes.
  - split; [solve_changes|done].
  - split; [solve_changes|done].
  - split; [solve_changes|done].
  - destruct (Backend.updateDocument true id Doc.isRead_true (store w)) as [[|] s];
      simpl; (split; [solve_changes|done]).
  - destruct (Backend.updateDocument false id Doc.isRead_true (store w)) as [[|] s];
      simpl; (split; [solve_changes|done]).
  - split; [solve_changes|done].
  - split; [|done]. split; [reflexivity|]. eexists.
    split; [simpl; reflexivity|]. apply count_unload_deletes.
  - destruct (Backend.deleteDocuments (zip ids oks) (store w)) as [rs s].
    destruct (forallb id rs); simpl; (split; [solve_changes|done]).
Qed.

Lemma changes_trans (w1 w2 w3 : World) :
  changes w1 w2 → changes w2 w3 → changes w1 w3.
Proof.
  intros (Hm1 & e1 & Ht1 & Hc1) (Hm2 & e2 & Ht2 & Hc2).
  split; [congruence|]. exists (e1 ++ e2). split.
  - by rewrite Ht2, Ht1, (assoc_L (++)).
  - rewrite count_app. lia.
Qed.

Lemma changes_count_unload (w w' : World) :
  changes w w' → count is_unload (trace w') = count is_unload (trace w).
Proof. intros (_ & es & -> & Hc). rewrite count_app. lia. Qed.

(** Once the screen is unmounted no step unloads a sound. *)
Lemma step_unmounted (l : Label) (w w' : World) :
  mounted w = false → step l w = Some w' → changes w w'.
Proof.
  intros Hm Hs. destruct l as [| | | | |i o]; simpl in Hs;
    rewrite ?Hm in Hs; simpl in Hs; try discriminate Hs.
  - destruct (subscribed w); [|discriminate Hs]. injection Hs as <-.
    unfold_M. simpl. destruct (soundRef (comp w)); simpl; solve_changes.
  - destruct (pending w !! i) as [t|]; [|discriminate Hs]. simpl in Hs.
    destruct (resume t o) as [k|] eqn:Hr; [|discriminate Hs].
    simpl in Hs. injection Hs as <-.
    exact (proj1 (resume_changes t o k _ Hr)).
Qed.

Lemma steps_unmounted (ls : list Label) (w w' : World) :
  mounted w = false → steps ls w = Some w' → changes w w'.
Proof.
  revert w. induction ls as [|l ls IH]; intros w Hm Hs; simpl in Hs.
  - injection Hs as <-. split; [done|]. exists []. by rewrite app_nil_r.
  - destruct (step l w) as [w1|] eqn:H1; [|discriminate Hs]. simpl in Hs.
    pose proof (step_unmounted l w w1 Hm H1) as Hc.
    eapply changes_trans; [exact Hc|].
    apply IH; [|exact Hs]. destruct Hc as [-> _]. exact Hm.
Qed.

(** ** The refresh flag *)

Lemma step_keeps_refreshing (l : Label) (w w' : World) :
  step l w = Some w' →
  settles_fetch l w = false →
  refreshing (comp w) = true →
  refreshing (comp w') = true.
Proof.
  intros Hs Hq Hr. destruct l as [|i| | | |i o]; simpl in Hs.
  - destruct (mounted w); [|discriminate Hs]. injection Hs as <-.
    unfold_M. simpl. by case_decide.
  - destruct (_ && _); [|discriminate Hs]. by injection Hs as <-.
  - destruct (_ && _); [|discriminate Hs]. by injection Hs as <-.
  - destruct (subscribed w); [|discriminate Hs]. injection Hs as <-.
    unfold_M. simpl. by destruct (soundRef (comp w)).
  - destruct (mounted w); [|discriminate Hs]. injection Hs as <-.
    unfold_M. simpl. by destruct (soundRef (comp w)).
  - simpl in Hq. destruct (pending w !! i) as [t|]; [|discriminate Hs].
    simpl in Hs. destruct (resume t o) as [k|] eqn:Hk; [|discriminate Hs].
    simpl in Hs. injection Hs as <-.
    rewrite (proj2 (resume_changes t o k _ Hk) Hq). exact Hr.
Qed.

Lemma steps_keep_refreshing (ls : list Label) (w w' : World) :
  steps ls w = Some w' →
  no_fetch_settles ls w →
  refreshing (comp w) = true →
  refreshing (comp w') = true.
Proof.
  revert w. induction ls as [|l ls IH]; intros w Hs Hq Hr; simpl in Hs.
  - by injection Hs as <-.
  - destruct Hq as [Hl Hq].
    destruct (step l w) as [w1|] eqn:H1; [|discriminate Hs]. simpl in Hs.
    apply (IH w1 Hs Hq).
    exact (step_keeps_refreshing l w w1 H1 Hl Hr).
Qed.

(** C10. A pull-to-refresh made while the stored email is empty sets the
    refresh flag, starts no fetch and emits nothing; and the flag then
    stays set along every run of the screen in which no fetch settles. *)
Theorem refresh_without_user_leaves_flag_set (w : World) :
  userEmail (comp w) = "" →
  let w1 := exec onRefresh w in
  refreshing (comp w1) = true ∧
  pending w1 = pending w ∧
  trace w1 = trace w ∧
  ∀ ls w2, steps ls w1 = Some w2 → no_fetch_settles ls w1 →
           refreshing (comp w2) = true.
Proof.
  intros He w1.
  assert (H1 : refreshing (comp w1) = true ∧ pending w1 = pending w ∧
               trace w1 = trace w).
  { subst w1. unfold_M. simpl. rewrite He. simpl. done. }
  destruct H1 as (Hr & Hp & Ht). repeat split; try assumption.
  intros ls w2 Hs Hq. exact (steps_keep_refreshing ls w1 w2 Hs Hq Hr).
Qed.

Lemma refresh_without_user_leaves_flag_set_witness :
  refreshing (comp (exec onRefresh Example.fresh)) = true ∧
  (λ w, refreshing (comp w)) <$>
    steps [PushReceived; Settle_task 0 Rejected; PullToRefresh]
          (exec onRefresh Example.fresh) = Some true.
Proof.
  destruct (refresh_without_user_leaves_flag_set Example.fresh)
    as (Hr & _ & _ & Hk); [reflexivity|].
  split; [exact Hr|].
  destruct (steps [PushReceived; Settle_task 0 Rejected; PullToRefresh]
                  (exec onRefresh Example.fresh)) as [w2|] eqn:Hs.
  - simpl. f_equal. apply (Hk _ w2 Hs). vm_compute. tauto.
  - vm_compute in Hs. discriminate Hs.
Defined.

(** ** Unmounting *)

(** C7, at the run where the screen is unmounted while the sound is still
    loading.  The cleanup finds [soundRef.current] empty and unloads
    nothing; the listener is removed once; the load then completes and
    stores the sound, and no later step unloads it. *)
Theorem unmount_before_load_never_unloads (s : gmap string Doc.t) :
  let w0 := exec mount (initial_world s) in
  ∃ w, steps [Unmount; Settle_task 0 Fulfilled] w0 = Some w ∧
       mounted w = false ∧
       soundRef (comp w) = Some NotificationMp3 ∧
       count is_unload (trace w) = 0 ∧
       count is_remove (trace w) = 1 ∧
       ∀ ls w', steps ls w = Some w' → count is_unload (trace w') = 0.
Proof.
  intros w0. eexists. split; [reflexivity|].
  repeat split.
  intros ls w' Hs.
  apply steps_unmounted in Hs; [|reflexivity].
  by rewrite (changes_count_unload _ _ Hs).
Qed.

(** When the load has completed before the unmount, the cleanup unloads
    the sound once and removes the listener once. *)
Lemma unmount_after_load_unloads_once (s : gmap string Doc.t) :
  let w0 := exec mount (initial_world s) in
  ∃ w, steps [Settle_task 0 Fulfilled; Unmount] w0 = Some w ∧
       count is_unload (trace w) = 1 ∧
       count is_remove (trace w) = 1 ∧
       ∀ ls w', steps ls w = Some w' → count is_unload (trace w') = 1.
Proof.
  intros w0. eexists. split; [reflexivity|].
  repeat split.
  intros ls w' Hs.
  apply steps_unmounted in Hs; [|reflexivity].
  by rewrite (changes_count_unload _ _ Hs).
Qed.

(** ** Mark as read, end to end *)

Lemma steps_app (ls1 ls2 : list Label) (w w1 : World) :
  steps ls1 w = Some w1 → steps (ls1 ++ ls2) w = steps ls2 w1.
Proof.
  revert w. induction ls1 as [|l ls1 IH]; intros w H; simpl in *.
  - by injection H as ->.
  - destruct (step l w) as [w'|]; [|discriminate H]. simpl in *. by apply IH.
Qed.

Lemma steps_cons (l : Label) (ls : list Label) (w w1 : World) :
  step l w = Some w1 → steps (l :: ls) w = steps ls w1.
Proof. intros H. simpl. by rewrite H. Qed.

Lemma markAsRead_spawns (w : World) (id : string) :
  pending (exec (markAsRead id) w) =
  pending w ++ [AwaitUpdateDocument id (userEmail (comp w)) (previousCount (comp w))].
Proof. reflexivity. Qed.

Lemma step_dismiss (w : World) (id : string) :
  mounted w = true →
  id ∈ (doc_id <$> notifications (comp w)) →
  step (Dismiss id) w = Some (exec (markAsRead id) w).
Proof.
  intros Hm Hid. unfold step. rewrite Hm. simpl.
  by rewrite bool_decide_true.
Qed.

(** A record whose read flag is set in the store is in no fetched list. *)
Lemma read_record_not_fetched (w : World) (email id : string) (d : Doc.t) :
  store w !! id = Some d →
  Doc.isRead d = true →
  id ∉ (doc_id <$> fetched w email).
Proof.
  intros Hs Hr Hin.
  apply list_elem_of_fmap in Hin as ([i r] & Hi & Hin).
  unfold doc_id in Hi. simpl in Hi. subst i.
  apply elem_of_fetched in Hin as (Hl & _ & Hu). simpl in Hl, Hu.
  congruence.
Qed.

(** C4. Dismissing a displayed record that the store holds: the update
    sets the read flag of that record and changes nothing else in the
    store; the fetch is then re-issued, and once fulfilled its list does
    not hold the record (nor does the list of any later fetch on that
    store).  When the update is rejected the store is unchanged, no fetch
    is issued and the error alert is reported. *)
Theorem mark_as_read_hides_record (w : World) (id : string) (d : Doc.t) :
  mounted w = true →
  id ∈ (doc_id <$> notifications (comp w)) →
  store w !! id = Some d →
  let k := length (pending w) in
  let email := userEmail (comp w) in
  let prev := previousCount (comp w) in
  let w1 := exec (markAsRead id) w in
  let w2 := exec (markAsRead_resume id email prev true)
                 (with_pending (pending w) w1) in
  let w3 := exec (fetchNotifications_resume prev email true)
                 (with_pending (pending w) w2) in
  let wf := exec (markAsRead_resume id email prev false)
                 (with_pending (pending w) w1) in
  steps [Dismiss id; Settle_task k Fulfilled] w = Some w2 ∧
  store w2 = <[id := Doc.update Doc.isRead_true d]> (store w) ∧
  (∀ j, j ≠ id → store w2 !! j = store w !! j) ∧
  (Doc.isRead (Doc.update Doc.isRead_true d) = true ∧
   Doc.userEmail (Doc.update Doc.isRead_true d) = Doc.userEmail d ∧
   Doc.description (Doc.update Doc.isRead_true d) = Doc.description d ∧
   Doc.createdAt (Doc.update Doc.isRead_true d) = Doc.createdAt d ∧
   Doc.sys_createdAt (Doc.update Doc.isRead_true d) = Doc.sys_createdAt d) ∧
  pending w2 = pending w ++ [AwaitListDocuments email prev] ∧
  step (Settle_task k Fulfilled) w2 = Some w3 ∧
  (id ∉ (doc_id <$> notifications (comp w3))) ∧
  (∀ e, id ∉ (doc_id <$> fetched w2 e)) ∧
  steps [Dismiss id; Settle_task k Rejected] w = Some wf ∧
  store wf = store w ∧
  pending wf = pending w ∧
  emitted w wf =
    [Haptic Success; UpdateDocument id Doc.isRead_true; Alert "Error" "Failed to mark as read"].
Proof.
  intros Hm Hid Hd k email prev w1 w2 w3 wf.
  assert (Hs2 : store w2 = <[id := Doc.update Doc.isRead_true d]> (store w)).
  { subst w2 w1. unfold_M. simpl. unfold Backend.updateDocument.
    rewrite Hd. reflexivity. }
  assert (Hp2 : pending w2 = pending w ++ [AwaitListDocuments email prev]).
  { subst w2 w1. unfold_M. simpl. unfold Backend.updateDocument.
    rewrite Hd. reflexivity. }
  assert (Hl2 : store w2 !! id = Some (Doc.update Doc.isRead_true d)).
  { rewrite Hs2. apply lookup_insert_eq. }
  assert (Hf : ∀ e, id ∉ doc_id <$> fetched w2 e).
  { intros e. by apply (read_record_not_fetched w2 e id (Doc.update Doc.isRead_true d)). }
  split; [|split; [exact Hs2|]].
  { rewrite (steps_cons _ _ _ _ (step_dismiss w id Hm Hid)).
    rewrite (steps_cons _ _ _ _
               (step_settle_spawned (exec (markAsRead id) w) (pending w) _
                  Fulfilled _ (markAsRead_spawns w id) eq_refl)).
    reflexivity. }
  split; [intros j Hj; rewrite Hs2; by apply lookup_insert_ne|].
  split; [repeat split|]. split; [exact Hp2|].
  split; [exact (step_settle_spawned w2 (pending w) _ Fulfilled _ Hp2 eq_refl)|].
  split.
  { subst w3.
    destruct (fetch_fulfilled_comp (with_pending (pending w) w2) prev email)
      as (-> & _).
    exact (Hf email). }
  split; [exact Hf|].
  split.
  { rewrite (steps_cons _ _ _ _ (step_dismiss w id Hm Hid)).
    rewrite (steps_cons _ _ _ _
               (step_settle_spawned (exec (markAsRead id) w) (pending w) _
                  Rejected _ (markAsRead_spawns w id) eq_refl)).
    reflexivity. }
  subst wf w1. unfold_M. simpl. unfold Backend.updateDocument.
  rewrite Hd. simpl. trace_tail. done.
Qed.

Lemma mark_as_read_hides_record_witness :
  steps [Dismiss "a"; Settle_task 2 Fulfilled] Example.loaded
    = Some (exec (markAsRead_resume "a" "u@x" 2 true)
              (with_pending (pending Example.loaded)
                 (exec (markAsRead "a") Example.loaded))) ∧
  "a" ∉ (doc_id <$> fetched
           (exec (markAsRead_resume "a" "u@x" 2 true)
              (with_pending (pending Example.loaded)
                 (exec (markAsRead "a") Example.loaded))) "u@x").
Proof.
  destruct (mark_as_read_hides_record Example.loaded "a" Example.first)
    as (H1 & _ & _ & _ & _ & _ & _ & H3 & _).
  - reflexivity.
  - vm_compute. apply list_elem_of_In. simpl. tauto.
  - vm_compute. reflexivity.
  - split; [exact H1|exact (H3 "u@x")].
Defined.

(** ** Overlapping fetches *)


(** ** Delete all *)

Section delete_documents.
Implicit Types (calls : list (string * bool)) (s : gmap string Doc.t).

Lemma deleteDocument_lookup ok id s j :
  (Backend.deleteDocument ok id s).2 !! j = None ∨
  (Backend.deleteDocument ok id s).2 !! j = s !! j.
Proof.
  unfold Backend.deleteDocument.
  destruct (s !! id), ok; simpl; auto.
  destruct (decide (id = j)) as [->|Hne].
  - left. apply lookup_delete_eq.
  - right. by apply lookup_delete_ne.
Qed.



Lemma deleteDocuments_cons id ok calls s :
  Backend.deleteDocuments ((id, ok) :: calls) s =
  ((Backend.deleteDocument ok id s).1 ::
     (Backend.deleteDocuments calls (Backend.deleteDocument ok id s).2).1,
   (Backend.deleteDocuments calls (Backend.deleteDocument ok id s).2).2).
Proof.
  simpl. destruct (Backend.deleteDocument ok id s) as [r s1]. simpl.
  by destruct (Backend.deleteDocuments calls s1).
Qed.

Lemma deleteDocuments_lookup calls s j :
  (Backend.deleteDocuments calls s).2 !! j = None ∨
  (Backend.deleteDocuments calls s).2 !! j = s !! j.
Proof.
  revert s. induction calls as [|[id ok] calls IH]; intros s.
  - by right.
  - rewrite deleteDocuments_cons. simpl.
    destruct (IH (Backend.deleteDocument ok id s).2) as [H|H]; [by left|].
    rewrite H. apply deleteDocument_lookup.
Qed.




End delete_documents.

Lemma step_press_delete_all (w : World) :
  mounted w = true →
  0 < length (notifications (comp w)) →
  step PressDeleteAll w = Some (exec deleteAllNotifications w).
Proof.
  intros Hm Hn. unfold step. rewrite Hm. simpl.
  by apply Nat.ltb_lt in Hn as ->.
Qed.




(** * Properties of whole runs *)

Lemma steps_invariant (P : World → Prop) :
  (∀ l w w', P w → step l w = Some w' → P w') →
  ∀ ls w w', P w → steps ls w = Some w' → P w'.
Proof.
  intros Hstep ls. induction ls as [|l ls IH]; intros w w' HP Hs; simpl in Hs.
  - by injection Hs as <-.
  - destruct (step l w) as [w1|] eqn:H1; [|discriminate Hs].
    simpl in Hs. exact (IH w1 w' (Hstep l w w1 HP H1) Hs).
Qed.

Lemma reachable_invariant (P : World → Prop) (s : gmap string Doc.t) :
  P (exec mount (initial_world s)) →
  (∀ l w w', P w → step l w = Some w' → P w') →
  ∀ w, reachable s w → P w.
Proof.
  intros H0 Hstep w [ls Hs]. exact (steps_invariant P Hstep ls _ w H0 Hs).
Qed.

Lemma step_shape_of (l : Label) (w w' : World) :
  step l w = Some w' → step_shape w l w'.
Proof.
  intros Hs. destruct l as [|i| | | |i o]; simpl in Hs.
  - destruct (mounted w) eqn:Hm; [|discriminate Hs].
    injection Hs as <-. by constructor.
  - destruct (mounted w) eqn:Hm; [|discriminate Hs]. simpl in Hs.
    case_bool_decide as Hi; [|discriminate Hs].
    injection Hs as <-. by constructor.
  - destruct (mounted w) eqn:Hm; [|discriminate Hs]. simpl in Hs.
    destruct (Nat.ltb_spec 0 (length (notifications (comp w))));
      [|discriminate Hs].
    injection Hs as <-. by constructor.
  - destruct (subscribed w) eqn:Hm; [|discriminate Hs].
    injection Hs as <-. by constructor.
  - destruct (mounted w) eqn:Hm; [|discriminate Hs].
    injection Hs as <-. by constructor.
  - destruct (pending w !! i) as [t|] eqn:Ht; [|discriminate Hs].
    simpl in Hs. destruct (resume t o) as [k|] eqn:Hk; [|discriminate Hs].
    simpl in Hs. injection Hs as <-. by econstructor.
Qed.

(** Case analysis on a settled promise and its outcome. *)
Ltac resume_cases Hk :=
  match type of Hk with
  | resume ?t ?o = Some _ =>
      destruct t, o as [| | |?env|?oks|[|]]; simpl in Hk;
      try discriminate Hk; try case_decide; try discriminate Hk;
      injection Hk as <-
  end.

(** Running a handler or a continuation by cases. *)
Ltac run_M :=
  unfold_M; unfold fetched in *; simpl;
  repeat (case_match; simplify_eq/=).

(** A step leaves the displayed list and the baseline alone, unless it is
    a fulfilled fetch, which sets both from the fetched records. *)
Lemma step_notifications (l : Label) (w w' : World) :
  step l w = Some w' →
  (notifications (comp w') = notifications (comp w) ∧
   previousCount (comp w') = previousCount (comp w)) ∨
  (∃ i e n, l = Settle_task i Fulfilled ∧
            pending w !! i = Some (AwaitListDocuments e n) ∧
            notifications (comp w') = fetched w e ∧
            previousCount (comp w') = length (fetched w e)).
Proof.
  intros Hs. apply step_shape_of in Hs.
  destruct Hs as [Hm|i Hm Hi|Hm Hn|Hm|Hm|i o t k Ht Hk];
    try (left; run_M; done).
  resume_cases Hk; try (left; run_M; done).
  right. do 3 eexists. split; [reflexivity|]. split; [exact Ht|].
  run_M; done.
Qed.

Lemma accounts_app (p q : list Task) : accounts (p ++ q) = accounts p + accounts q.
Proof. unfold accounts. by rewrite List.filter_app, length_app. Qed.

Lemma accounts_delete (p : list Task) (i : nat) (t : Task) :
  p !! i = Some t →
  accounts p = accounts (delete i p) + (if is_account t then 1 else 0).
Proof.
  intros Hi. rewrite <- (take_drop_middle p i t Hi) at 1.
  rewrite delete_take_drop. unfold accounts.
  rewrite !List.filter_app. simpl.
  destruct (is_account t); rewrite !length_app; simpl; lia.
Qed.

Ltac owned_facts :=
  repeat match goal with
  | Ht : pending ?w !! ?i = Some ?t |- _ =>
      lazymatch goal with
      | _ : accounts (pending w) = accounts (delete i (pending w)) + _ |- _ => fail
      | _ => pose proof (accounts_delete _ _ _ Ht); simpl in *
      end
  | Ht : pending ?w !! ?i = Some ?t, H : Forall ?P (pending ?w) |- _ =>
      lazymatch goal with
      | _ : Forall P (delete i (pending w)) |- _ => fail
      | _ => pose proof (Forall_delete P _ i H);
             pose proof (Forall_lookup_1 P _ _ _ H Ht); simpl in *
      end
  end.

Lemma fetched_owned (s : gmap string Doc.t) (e : string) :
  Forall (λ d : Document, Doc.userEmail d.2 = e)
         (List.filter unread (Backend.listDocuments s e)).
Proof.
  rewrite Forall_forall. intros d Hd.
  apply elem_of_List_filter in Hd as [Hd _].
  by apply elem_of_listDocuments in Hd as [_ Hd].
Qed.

Lemma Forall_no_email (p : list Task) (e : string) :
  Forall (λ t, task_email t = None) p →
  Forall (λ t, ∀ e', task_email t = Some e' → e' = e) p.
Proof. intros H. eapply Forall_impl; [exact H|]. intros t -> e' [=]. Qed.

Ltac owned_leaf :=
  rewrite ?Forall_app, ?accounts_app, ?Forall_singleton;
  unfold accounts in *; simpl in *;
  repeat split; try assumption; try lia; try done;
  try (intros; simplify_eq/=; done || lia || eauto);
  try (exfalso; lia).

Lemma owned_preserved (l : Label) (w w' : World) :
  owned w → step l w = Some w' → owned w'.
Proof.
  intros (Hn & Hp & Ha & Hacc) Hs. apply step_shape_of in Hs.
  assert (Hz : accounts (pending w) = 0 ∨
               (notifications (comp w) = [] ∧ userEmail (comp w) = "" ∧
                Forall (λ t, task_email t = None) (pending w))).
  { destruct (accounts (pending w)); [by left|right; apply Hacc; lia]. }
  clear Hacc.
  destruct Hs as [Hm|i Hm Hi|Hm Hl|Hm|Hm|i o t k Ht Hk].
  6: resume_cases Hk.
  all: unfold owned; run_M; destruct Hz as [Hz|(Hz1 & Hz2 & Hz3)];
    try (exfalso; rewrite Hz1 in Hi; simpl in Hi; by apply elem_of_nil in Hi);
    try (exfalso; rewrite Hz1 in Hl; simpl in Hl; lia);
    owned_facts;
    try match goal with
        | H : ∀ e, Some ?x = Some e → e = _ |- _ =>
            pose proof (H _ eq_refl); subst x
        end;
    try rewrite Hz1;
    owned_leaf.
  - by apply Forall_no_email.
  - apply fetched_owned.
  - apply fetched_owned.
  - apply fetched_owned.
Qed.

Lemma owned_mount (s : gmap string Doc.t) : owned (exec mount (initial_world s)).
Proof.
  unfold owned, accounts. simpl. repeat split; try done; try lia.
  - repeat constructor; intros e [=].
  - repeat constructor.
Qed.

Lemma list_shape_preserved (l : Label) (w w' : World) :
  list_shape w → step l w = Some w' → list_shape w'.
Proof.
  intros [Hc (s & e & Hn)] Hs. unfold list_shape.
  destruct (step_notifications l w w' Hs)
    as [[-> ->]|(i & e' & n & _ & _ & -> & ->)].
  - split; [exact Hc|]. by exists s, e.
  - split; [reflexivity|]. by exists (store w), e'.
Qed.

Lemma list_shape_mount (s : gmap string Doc.t) :
  list_shape (exec mount (initial_world s)).
Proof.
  split; [reflexivity|]. exists ∅, "". reflexivity.
Qed.

(** X1. In every world the screen reaches from its mount, the stored
    baseline [previousCount] is the number of displayed notifications. *)
Theorem baseline_is_displayed_count (s : gmap string Doc.t) (w : World) :
  reachable s w →
  previousCount (comp w) = length (notifications (comp w)).
Proof.
  intros Hr.
  exact (proj1 (reachable_invariant list_shape s (list_shape_mount s)
                  list_shape_preserved w Hr)).
Qed.

(** X2. In every world the screen reaches from its mount, every displayed
    record is unread, the list is ordered by [createdAt], newest first, and
    no two displayed records have the same [$id]. *)
Theorem displayed_list_is_well_formed (s : gmap string Doc.t) (w : World) :
  reachable s w →
  Forall (λ d, Doc.isRead d.2 = false) (notifications (comp w)) ∧
  StronglySorted (λ a b, (Doc.createdAt b.2 <= Doc.createdAt a.2)%Z)
                 (notifications (comp w)) ∧
  NoDup (doc_id <$> notifications (comp w)).
Proof.
  intros Hr.
  destruct (reachable_invariant list_shape s (list_shape_mount s)
              list_shape_preserved w Hr) as [_ (s' & e & ->)].
  split; [|split].
  - rewrite Forall_forall. intros d Hd.
    apply elem_of_List_filter in Hd as [_ Hd].
    unfold unread in Hd. by apply negb_true_iff in Hd.
  - apply filter_StronglySorted, listDocuments_sorted.
  - eapply sublist_NoDup; [apply (listDocuments_NoDup s' e)|].
    apply (fmap_sublist doc_id).
    clear. induction (Backend.listDocuments s' e) as [|d l IH]; simpl.
    + constructor.
    + destruct (unread d); by constructor.
Qed.

(** X3. In every world the screen reaches from its mount, every displayed
    record belongs to the stored [userEmail]. *)
Theorem displayed_records_belong_to_user (s : gmap string Doc.t) (w : World) :
  reachable s w →
  Forall (λ d, Doc.userEmail d.2 = userEmail (comp w)) (notifications (comp w)).
Proof.
  intros Hr.
  exact (proj1 (reachable_invariant owned s (owned_mount s)
                  owned_preserved w Hr)).
Qed.

(** ** Counting events *)

Lemma count_none (f : Event → bool) (es : list Event) :
  Forall (λ e, f e = false) es → count f es = 0.
Proof.
  unfold count. induction 1 as [|e es He _ IH]; simpl; [done|].
  by rewrite He.
Qed.

Lemma count_snoc (f : Event → bool) (es : list Event) (e : Event) :
  count f (es ++ [e]) = count f es + (if f e then 1 else 0).
Proof. rewrite count_app. unfold count. simpl. by destruct (f e). Qed.

Lemma registration_events (env : PushEnv) :
  Forall registration_event (registerForPushNotificationsAsync env).2.
Proof.
  unfold registerForPushNotificationsAsync.
  repeat (case_match; simpl); repeat constructor.
Qed.

Lemma count_registration (f : Event → bool) (env : PushEnv) :
  (∀ e, registration_event e → f e = false) →
  count f (registerForPushNotificationsAsync env).2 = 0.
Proof.
  intros Hf. apply count_none.
  eapply Forall_impl; [apply registration_events|exact Hf].
Qed.

Lemma count_deletes (f : Event → bool) (l : list Document) :
  (∀ i, f (DeleteDocument i) = false) →
  count f ((λ n, DeleteDocument (doc_id n)) <$> l) = 0.
Proof.
  intros Hf. apply count_none. rewrite Forall_fmap.
  apply Forall_forall. intros d _. apply Hf.
Qed.

Ltac count_facts f :=
  repeat match goal with
  | H : registerForPushNotificationsAsync ?env = (_, ?es) |- _ =>
      lazymatch goal with
      | _ : count f es = 0 |- _ => fail
      | _ =>
          let Hc := fresh "Hc" in
          assert (Hc : count f es = 0)
            by (pose proof (count_registration f env) as Hc;
                rewrite H in Hc; apply Hc; by intros [])
      end
  end.

Lemma lifecycle_preserved (l : Label) (w w' : World) :
  lifecycle w → step l w = Some w' → lifecycle w'.
Proof.
  intros (Hsub & Hadd & Hrem & Hun) Hs. apply step_shape_of in Hs.
  destruct Hs as [Hm|i Hm Hi|Hm Hl|Hm|Hm|i o t k Ht Hk].
  6: resume_cases Hk.
  all: unfold lifecycle; run_M;
    count_facts is_add; count_facts is_remove; count_facts is_unload;
    rewrite ?count_app,
            ?(count_deletes is_add), ?(count_deletes is_remove),
            ?(count_deletes is_unload) by done;
    unfold count in *; simpl; rewrite ?Hm in *;
    repeat split; try done; try lia.
Qed.

Lemma lifecycle_mount (s : gmap string Doc.t) :
  lifecycle (exec mount (initial_world s)).
Proof. unfold lifecycle. simpl. repeat split; reflexivity || (vm_compute; lia). Qed.

(** X4. Along every run from the mount the push listener is subscribed
    exactly while the screen is mounted: it is added once, never removed
    while mounted and removed exactly once by the unmount, after which no
    received notification reaches the screen.  No sound is unloaded while
    the screen is mounted, and at most one afterwards. *)
Theorem listener_and_sound_lifecycle (s : gmap string Doc.t) (w : World) :
  reachable s w →
  subscribed w = mounted w ∧
  count is_add (trace w) = 1 ∧
  count is_remove (trace w) = (if mounted w then 0 else 1) ∧
  (count is_unload (trace w) ≤ (if mounted w then 0 else 1))%nat ∧
  (mounted w = false → step PushReceived w = None).
Proof.
  intros Hr.
  destruct (reachable_invariant lifecycle s (lifecycle_mount s)
              lifecycle_preserved w Hr) as (Hs & Ha & Hrm & Hu).
  repeat split; try assumption.
  intros Hm. simpl. by rewrite Hs, Hm.
Qed.

(** ** The store along a run *)

Lemma record_follows_refl (o : option Doc.t) : record_follows o o.
Proof. destruct o; simpl; auto. Qed.

Lemma record_follows_trans (a b c : option Doc.t) :
  record_follows a b → record_follows b c → record_follows a c.
Proof.
  destruct a as [d|]; simpl.
  - intros [-> | [-> | ->]]; simpl; auto.
    intros [-> | [-> | ->]]; auto.
  - intros ->. simpl. auto.
Qed.

Lemma updateDocument_follows (ok : bool) (id : string) (s : gmap string Doc.t) :
  store_follows s (Backend.updateDocument ok id Doc.isRead_true s).2.
Proof.
  intros j. unfold Backend.updateDocument.
  destruct (s !! id) as [d|] eqn:Hd; [destruct ok|]; simpl;
    try apply record_follows_refl.
  destruct (decide (id = j)) as [->|Hne].
  - rewrite lookup_insert_eq, Hd. simpl. auto.
  - rewrite lookup_insert_ne by done. apply record_follows_refl.
Qed.

Lemma deleteDocuments_follows (calls : list (string * bool))
    (s : gmap string Doc.t) :
  store_follows s (Backend.deleteDocuments calls s).2.
Proof.
  intros j. destruct (deleteDocuments_lookup calls s j) as [H|H]; rewrite H.
  - destruct (s !! j); simpl; auto.
  - apply record_follows_refl.
Qed.

(** A step changes the store only by settling an update or a batch of
    deletes. *)
Lemma step_store (l : Label) (w w' : World) :
  step l w = Some w' →
  store w' = store w ∨
  (∃ ok id, store w' =
            (Backend.updateDocument ok id Doc.isRead_true (store w)).2) ∨
  (∃ i oks ids e n,
     l = Settle_task i (Settled oks) ∧
     pending w !! i = Some (AwaitDeleteAll ids e n) ∧
     store w' = (Backend.deleteDocuments (zip ids oks) (store w)).2).
Proof.
  intros Hs. apply step_shape_of in Hs.
  destruct Hs as [Hm|i Hm Hi|Hm Hl|Hm|Hm|i o t k Ht Hk];
    try (left; run_M; done).
  resume_cases Hk; try (left; run_M; done).
  - right. left. exists true, id. unfold_M. simpl.
    by destruct (Backend.updateDocument true id Doc.isRead_true (store w))
      as [[|] s'].
  - right. left. exists false, id. unfold_M. simpl.
    by destruct (Backend.updateDocument false id Doc.isRead_true (store w))
      as [[|] s'].
  - right. right. do 5 eexists. split; [reflexivity|]. split; [exact Ht|].
    unfold_M. simpl.
    destruct (Backend.deleteDocuments (zip ids oks) (store w)) as [rs s'].
    simpl. by destruct (forallb id rs).
Qed.

Lemma step_store_follows (l : Label) (w w' : World) :
  step l w = Some w' → store_follows (store w) (store w').
Proof.
  intros Hs.
  destruct (step_store l w w' Hs)
    as [-> | [(ok & id & ->) | (i & oks & ids & e & n & _ & _ & ->)]].
  - intros j. apply record_follows_refl.
  - apply updateDocument_follows.
  - apply deleteDocuments_follows.
Qed.

(** X5. Whatever the screen does, a record the store did not hold stays
    absent, and a record it held is afterwards deleted, unchanged, or
    changed in its read flag only, which is then set. *)
Theorem store_only_loses_or_marks_read (ls : list Label) (w w' : World) :
  steps ls w = Some w' →
  ∀ j, match store w !! j with
       | None => store w' !! j = None
       | Some d =>
           store w' !! j = None ∨ store w' !! j = Some d ∨
           store w' !! j = Some (Doc.update Doc.isRead_true d)
       end.
Proof.
  revert w. induction ls as [|l ls IH]; intros w Hs j; simpl in Hs.
  - injection Hs as <-. apply record_follows_refl.
  - destruct (step l w) as [w1|] eqn:H1; [|discriminate Hs]. simpl in Hs.
    exact (record_follows_trans _ _ _ (step_store_follows l w w1 H1 j)
             (IH w1 Hs j)).
Qed.

(** ** No delete without the confirmation *)

Lemma updateDocument_dom (ok : bool) (id : string) (s : gmap string Doc.t)
    (j : string) :
  is_Some ((Backend.updateDocument ok id Doc.isRead_true s).2 !! j) ↔
  is_Some (s !! j).
Proof.
  unfold Backend.updateDocument.
  destruct (s !! id) as [d|] eqn:Hd; [destruct ok|]; simpl; try done.
  destruct (decide (id = j)) as [->|Hne].
  - rewrite lookup_insert_eq, Hd. split; eauto.
  - by rewrite lookup_insert_ne.
Qed.

Lemma step_without_confirmation (l : Label) (w w' : World) :
  confirms_delete l = false →
  Forall (λ t, is_delete_all t = false) (pending w) →
  step l w = Some w' →
  Forall (λ t, is_delete_all t = false) (pending w') ∧
  count is_delete (trace w') = count is_delete (trace w) ∧
  ∀ j, is_Some (store w' !! j) ↔ is_Some (store w !! j).
Proof.
  intros Hl Hp Hs. apply step_shape_of in Hs.
  destruct Hs as [Hm|i Hm Hi|Hm Hn|Hm|Hm|i o t k Ht Hk].
  6: { pose proof (Forall_delete _ _ i Hp) as Hd.
       pose proof (Forall_lookup_1 _ _ _ _ Hp Ht) as Hti.
       resume_cases Hk; try discriminate Hl; try discriminate Hti.
       all: try pose proof (updateDocument_dom true id (store w)) as Hu.
       all: try pose proof (updateDocument_dom false id (store w)) as Hu'.
       all: run_M; count_facts is_delete;
         rewrite ?Forall_app, ?Forall_singleton, ?count_app;
         unfold count in *; simpl; split_and!; try done; try lia;
         try (intros j; apply Hu || apply Hu'). }
  all: run_M; rewrite ?Forall_app, ?Forall_singleton, ?count_app;
    unfold count in *; simpl; split_and!; try done; try lia.
Qed.

(** X6. From a world in which no batch of deletes is in flight, a run in
    which the [Delete] button of the confirmation dialog is never pressed
    sends no delete and leaves the store with the same records. *)
Theorem no_delete_without_confirmation (ls : list Label) (w w' : World) :
  Forall (λ t, is_delete_all t = false) (pending w) →
  Forall (λ l, confirms_delete l = false) ls →
  steps ls w = Some w' →
  count is_delete (trace w') = count is_delete (trace w) ∧
  ∀ j, is_Some (store w' !! j) ↔ is_Some (store w !! j).
Proof.
  intros Hp Hls. revert w Hp.
  induction Hls as [|l ls Hl _ IH]; intros w Hp Hs; simpl in Hs.
  - by injection Hs as <-.
  - destruct (step l w) as [w1|] eqn:H1; [|discriminate Hs]. simpl in Hs.
    destruct (step_without_confirmation l w w1 Hl Hp H1) as (Hp1 & Hc1 & Hd1).
    destruct (IH w1 Hp1 Hs) as [Hc Hd].
    split; [congruence|]. intros j. by rewrite Hd, Hd1.
Qed.

(** ** The screen without a user *)






Local Set Warnings "-clear-no-such-hyp".

(** ** Push registration, in full *)

Lemma registration_resolves_token (env : PushEnv) (token : string) :
  (registerForPushNotificationsAsync env).1 = Resolves (Some token) ↔
  isDevice env = true ∧ finally_granted env ∧
  getExpoPushTokenAsync env = Resolves token.
Proof.
  destruct env as [dev [existing|] [requested|] [tok|]];
    unfold registerForPushNotificationsAsync, finally_granted; simpl.
  all: destruct dev; simpl.
  all: try destruct existing; try destruct requested; simpl.
  all: split; naive_solver.
Qed.

(** X8. [registerForPushNotificationsAsync] shows at most one alert, and
    shows one exactly when it resolves with null, which is exactly when the
    device is not physical or permission is denied.  A permission that is
    already granted is not requested again, and on a device that is not
    physical no permission call is made. *)
Theorem registration_alerts_exactly_when_null (env : PushEnv) :
  (count is_alert (registerForPushNotificationsAsync env).2 ≤ 1)%nat ∧
  ((registerForPushNotificationsAsync env).1 = Resolves None ↔
   count is_alert (registerForPushNotificationsAsync env).2 = 1) ∧
  ((registerForPushNotificationsAsync env).1 = Resolves None ↔
   isDevice env = false ∨ permission_denied env) ∧
  (getPermissionsAsync env = Resolves granted →
   RequestPermissions ∉ (registerForPushNotificationsAsync env).2) ∧
  (isDevice env = false →
   (registerForPushNotificationsAsync env).2 =
     [Alert "Device error" "Must use physical device for push notifications."]).
Proof.
  destruct env as [dev [existing|] [requested|] [tok|]];
    unfold registerForPushNotificationsAsync, permission_denied; simpl.
  all: destruct dev; simpl.
  all: try destruct existing; try destruct requested; simpl.
  all: split_and!; try done; try (vm_compute; lia).
  all: try (intros _; rewrite list_elem_of_In; simpl; intuition discriminate).
  all: split; naive_solver.
Qed.

(** X9. After the registration of the mount has settled, a push token is
    stored exactly when the device is physical, the permission is granted
    in the end, and the token the service returned is not empty; it is that
    token, and nothing else of the state, the store or the pending promises
    changes. *)
Theorem push_token_stored_when_granted (env : PushEnv) (w : World) :
  expoPushToken (comp w) = None →
  let w' := exec (push_effect_resume env) w in
  (∀ token,
     expoPushToken (comp w') = Some token ↔
     token ≠ "" ∧ isDevice env = true ∧ finally_granted env ∧
     getExpoPushTokenAsync env = Resolves token) ∧
  notifications (comp w') = notifications (comp w) ∧
  refreshing (comp w') = refreshing (comp w) ∧
  previousCount (comp w') = previousCount (comp w) ∧
  userEmail (comp w') = userEmail (comp w) ∧
  soundRef (comp w') = soundRef (comp w) ∧
  store w' = store w ∧ pending w' = pending w.
Proof.
  intros Hnone w'.
  pose proof (registration_resolves_token env) as Htok.
  subst w'. unfold_M.
  destruct (registerForPushNotificationsAsync env) as [r es]. simpl in Htok.
  destruct r as [[t|]|]; simpl; try case_decide; simpl;
    split_and!; try done; intros token; rewrite ?Hnone;
    specialize (Htok token); naive_solver.
Qed.

(** ** The cue of a received push notification *)

(** X10. A received push notification changes neither the component
    state nor the store and shows no alert.  Without a loaded sound the
    haptic fires at once; with one the replay is started, and the haptic
    follows only when the replay is fulfilled: a rejected replay is logged
    and fires no haptic. *)
Theorem push_cue_never_alerts (w : World) (ok : bool) :
  subscribed w = true →
  let k := length (pending w) in
  let w1 := exec on_notification_received w in
  let w2 := exec (playNotificationSound_resume ok) (with_pending (pending w) w1) in
  step PushReceived w = Some w1 ∧
  comp w1 = comp w ∧ store w1 = store w ∧
  match soundRef (comp w) with
  | None =>
      pending w1 = pending w ∧
      emitted w w1 = [ConsoleLog "Notification received:"; Haptic Success]
  | Some _ =>
      emitted w w1 = [ConsoleLog "Notification received:"; ReplayAsync] ∧
      step (Settle_task k (if ok then Fulfilled else Rejected)) w1 = Some w2 ∧
      comp w2 = comp w ∧ store w2 = store w ∧ pending w2 = pending w ∧
      emitted w1 w2 =
        [if ok then Haptic Success else ConsoleLog "Error playing sound"]
  end.
Proof.
  intros Hsub k w1 w2.
  split; [simpl; by rewrite Hsub|].
  destruct (soundRef (comp w)) as [snd|] eqn:Hsnd.
  - assert (Hp1 : pending w1 = pending w ++ [AwaitReplayAsync]).
    { subst w1. unfold_M. simpl. by rewrite Hsnd. }
    assert (Hstep : step (Settle_task k (if ok then Fulfilled else Rejected)) w1
                    = Some w2).
    { destruct ok.
      - exact (step_settle_spawned w1 (pending w) AwaitReplayAsync Fulfilled
                 (playNotificationSound_resume true) Hp1 eq_refl).
      - exact (step_settle_spawned w1 (pending w) AwaitReplayAsync Rejected
                 (playNotificationSound_resume false) Hp1 eq_refl). }
    assert (Hrest :
      comp w1 = comp w ∧ store w1 = store w ∧
      emitted w w1 = [ConsoleLog "Notification received:"; ReplayAsync] ∧
      comp w2 = comp w ∧ store w2 = store w ∧ pending w2 = pending w ∧
      emitted w1 w2 =
        [if ok then Haptic Success else ConsoleLog "Error playing sound"]).
    { subst w2 w1. clear Hp1 Hstep. unfold_M. simpl. rewrite Hsnd. simpl.
      split_and!; try done; try (by destruct ok).
      - trace_tail. done.
      - destruct ok; simpl; by rewrite drop_app_length. }
    destruct Hrest as (? & ? & ? & ? & ? & ? & ?). split_and!; assumption.
  - subst w1. unfold_M. simpl. rewrite Hsnd. simpl.
    split_and!; try done. trace_tail. done.
Qed.

(** ** Fetching twice *)


(** ** Dismissing a record the store no longer holds *)


(** ** Cancelling the confirmation *)

(** X13. Pressing the delete icon and then [Cancel] shows the confirmation
    dialog and changes nothing else: state, store and pending promises are
    as before, and no delete is sent. *)
Theorem cancelled_delete_all_changes_nothing (w : World) :
  mounted w = true →
  0 < length (notifications (comp w)) →
  let k := length (pending w) in
  let w2 := exec skip (with_pending (pending w)
                         (exec deleteAllNotifications w)) in
  steps [PressDeleteAll; Settle_task k (Pressed Cancel)] w = Some w2 ∧
  comp w2 = comp w ∧ store w2 = store w ∧ pending w2 = pending w ∧
  emitted w w2 =
    [Alert "Delete All Notifications"
           "Are you sure you want to delete all unread notifications?"].
Proof.
  intros Hm Hn k w2. split.
  - rewrite (steps_cons _ _ _ _ (step_press_delete_all w Hm Hn)).
    rewrite (steps_cons _ _ _ _
               (step_settle_spawned (exec deleteAllNotifications w) (pending w)
                  (AwaitConfirm (notifications (comp w)) (userEmail (comp w))
                     (previousCount (comp w)))
                  (Pressed Cancel) skip eq_refl eq_refl)).
    reflexivity.
  - subst w2. unfold_M. simpl. trace_tail. done.
Qed.

(** ** The first load *)


(** ** The rendered screen *)

(** X15. On the mounted screen the delete icon is rendered exactly when
    the list is rendered instead of the empty state; the delete-all handler
    can be triggered exactly when the icon is rendered, and [markAsRead]
    can be called on exactly the identifiers of the rendered cards; with
    the empty state neither can. *)
Theorem render_offers_what_the_steps_accept (w : World) :
  mounted w = true →
  (delete_icon (render (comp w)) = true ↔
   body (render (comp w)) ≠ EmptyState) ∧
  (is_Some (step PressDeleteAll w) ↔ delete_icon (render (comp w)) = true) ∧
  (∀ i, is_Some (step (Dismiss i) w) ↔
        ∃ card, card ∈ cards (render (comp w)) ∧ dismisses card = i) ∧
  (body (render (comp w)) = EmptyState →
   step PressDeleteAll w = None ∧ ∀ i, step (Dismiss i) w = None).
Proof.
  intros Hm.
  assert (Hcards : cards (render (comp w)) =
                   renderItem <$> notifications (comp w)).
  { unfold cards, render. simpl. by destruct (notifications (comp w)). }
  assert (Hicon : delete_icon (render (comp w)) = true ↔
                  notifications (comp w) ≠ []).
  { unfold render. simpl. destruct (notifications (comp w)); simpl.
    - split; [discriminate|]. intros H. exfalso. by apply H.
    - split; [intros _ [=]|done]. }
  assert (Hbody : body (render (comp w)) = EmptyState ↔
                  notifications (comp w) = []).
  { unfold render. simpl. destruct (notifications (comp w)); simpl.
    - done.
    - split; intros [=]. }
  assert (Hpress : is_Some (step PressDeleteAll w) ↔
                   notifications (comp w) ≠ []).
  { unfold step. rewrite Hm. simpl. destruct (notifications (comp w)); simpl.
    - split; [intros [? [=]]|]. intros H. exfalso. by apply H.
    - split; [intros _ [=]|eauto]. }
  assert (Hdis : ∀ i, is_Some (step (Dismiss i) w) ↔
                      i ∈ (doc_id <$> notifications (comp w))).
  { intros i. unfold step. rewrite Hm. simpl. case_bool_decide as Hi.
    - split; eauto.
    - split; [intros [? [=]]|done]. }
  split_and!.
  - rewrite Hicon, Hbody. done.
  - by rewrite Hpress, Hicon.
  - intros i. rewrite Hdis, Hcards. split.
    + intros (x & -> & Hx)%list_elem_of_fmap.
      exists (renderItem x). split; [|done].
      apply list_elem_of_fmap. eauto.
    + intros (c & (x & -> & Hx)%list_elem_of_fmap & <-).
      apply list_elem_of_fmap. eauto.
  - intros Hb. apply Hbody in Hb. split.
    + destruct (step PressDeleteAll w) eqn:Hs; [|done].
      exfalso. apply (proj1 Hpress); eauto.
    + intros i. destruct (step (Dismiss i) w) eqn:Hs; [|done].
      exfalso. assert (Hi : i ∈ (doc_id <$> notifications (comp w)))
        by (apply Hdis; eauto).
      rewrite Hb in Hi. by apply elem_of_nil in Hi.
Qed.

(** X16. In every world the screen reaches from its mount, the rendered
    cards have pairwise distinct React keys, there are [previousCount] of
    them, each [Dismiss] button targets the record its card shows, and the
    delete icon is rendered exactly when [previousCount] is not zero. *)
Theorem rendered_cards_have_distinct_keys (s : gmap string Doc.t) (w : World) :
  reachable s w →
  NoDup (key <$> cards (render (comp w))) ∧
  length (cards (render (comp w))) = previousCount (comp w) ∧
  Forall (λ card, dismisses card = key card) (cards (render (comp w))) ∧
  (delete_icon (render (comp w)) = true ↔ previousCount (comp w) ≠ 0).
Proof.
  intros Hr.
  destruct (reachable_invariant list_shape s (list_shape_mount s)
              list_shape_preserved w Hr) as [Hc (s' & e & Hn)].
  assert (Hcards : cards (render (comp w)) = renderItem <$> notifications (comp w)).
  { unfold cards, render. simpl. by destruct (notifications (comp w)). }
  rewrite Hcards. split_and!.
  - rewrite <- list_fmap_compose.
    change (key ∘ renderItem) with doc_id.
    rewrite Hn. eapply sublist_NoDup; [apply (listDocuments_NoDup s' e)|].
    apply (fmap_sublist doc_id).
    clear. induction (Backend.listDocuments s' e) as [|d l IH]; simpl.
    + constructor.
    + destruct (unread d); by constructor.
  - by rewrite length_fmap.
  - rewrite Forall_fmap. by apply Forall_forall.
  - unfold render. simpl. rewrite Hc.
    destruct (notifications (comp w)); simpl; split; (done || lia || eauto).
Qed.

(** ** Dismissing leaves the other records *)


(** ** A fetch that settles after the unmount *)

(** X18. The cleanup unloads the sound but leaves it in
    [soundRef.current]: a fetch that is fulfilled after the unmount and
    finds more unread records than its baseline replays the sound that was
    just unloaded. *)
Theorem late_fetch_replays_unloaded_sound
    (w : World) (p : list Task) (email : string) (prev : nat) (snd : Sound) :
  mounted w = true →
  soundRef (comp w) = Some snd →
  pending w = p ++ [AwaitListDocuments email prev] →
  prev < length (fetched w email) →
  let w1 := exec unmount w in
  let w2 := exec (fetchNotifications_resume prev email true)
                 (with_pending p w1) in
  steps [Unmount; Settle_task (length p) Fulfilled] w = Some w2 ∧
  soundRef (comp w1) = Some snd ∧
  emitted w w2 = [UnloadAsync; RemoveListener; ReplayAsync].
Proof.
  intros Hm Hsnd Hp Hlt w1 w2.
  assert (Hp1 : pending w1 = p ++ [AwaitListDocuments email prev]).
  { subst w1. unfold_M. simpl. by rewrite Hsnd. }
  split; [|split].
  - assert (H1 : step Unmount w = Some w1) by (simpl; by rewrite Hm).
    rewrite (steps_cons _ _ _ _ H1).
    rewrite (steps_cons _ _ _ _
               (step_settle_spawned w1 p _ Fulfilled _ Hp1 eq_refl)).
    reflexivity.
  - subst w1. unfold_M. simpl. by rewrite Hsnd.
  - apply Nat.ltb_lt in Hlt. unfold fetched in Hlt.
    subst w2 w1. unfold_M. simpl. rewrite Hsnd. simpl.
    rewrite Hlt. simpl. rewrite Hsnd. simpl. trace_tail. done.
Qed.

(** ** Instances on the example worlds *)

Lemma baseline_is_displayed_count_witness :
  previousCount (comp Example.loaded) =
  length (notifications (comp Example.loaded)).
Proof.
  apply (baseline_is_displayed_count Example.remote Example.loaded).
  exists [Settle_task 2 (FulfilledUser "u@x"); Settle_task 2 Fulfilled].
  vm_compute. reflexivity.
Defined.

Lemma displayed_list_is_well_formed_witness :
  NoDup (doc_id <$> notifications (comp Example.loaded)).
Proof.
  apply (displayed_list_is_well_formed Example.remote Example.loaded).
  exists [Settle_task 2 (FulfilledUser "u@x"); Settle_task 2 Fulfilled].
  vm_compute. reflexivity.
Defined.

Lemma displayed_records_belong_to_user_witness :
  Forall (λ d, Doc.userEmail d.2 = userEmail (comp Example.loaded))
         (notifications (comp Example.loaded)).
Proof.
  apply (displayed_records_belong_to_user Example.remote Example.loaded).
  exists [Settle_task 2 (FulfilledUser "u@x"); Settle_task 2 Fulfilled].
  vm_compute. reflexivity.
Defined.

Lemma listener_and_sound_lifecycle_witness :
  subscribed Example.loaded = mounted Example.loaded ∧
  count is_add (trace Example.loaded) = 1.
Proof.
  destruct (listener_and_sound_lifecycle Example.remote Example.loaded)
    as (H1 & H2 & _).
  - exists [Settle_task 2 (FulfilledUser "u@x"); Settle_task 2 Fulfilled].
    vm_compute. reflexivity.
  - exact (conj H1 H2).
Defined.

Lemma store_only_loses_or_marks_read_witness :
  match store Example.loaded !! "a" with
  | None => store Scenario.dismissed !! "a" = None
  | Some d =>
      store Scenario.dismissed !! "a" = None ∨
      store Scenario.dismissed !! "a" = Some d ∨
      store Scenario.dismissed !! "a" = Some (Doc.update Doc.isRead_true d)
  end.
Proof.
  apply (store_only_loses_or_marks_read
           [Dismiss "a"; Settle_task 2 Fulfilled] Example.loaded).
  vm_compute. reflexivity.
Defined.

Lemma no_delete_without_confirmation_witness :
  count is_delete (trace Scenario.refreshed) =
  count is_delete (trace Example.loaded).
Proof.
  apply (no_delete_without_confirmation
           [PullToRefresh; Settle_task 2 Fulfilled] Example.loaded).
  - vm_compute. repeat constructor.
  - repeat constructor.
  - vm_compute. reflexivity.
Defined.


Lemma push_token_stored_when_granted_witness :
  expoPushToken (comp (exec (push_effect_resume Scenario.granting) Example.fresh))
  = Some "ExponentPushToken[x]".
Proof.
  destruct (push_token_stored_when_granted Scenario.granting Example.fresh)
    as (Ht & _); [reflexivity|].
  apply Ht. split; [discriminate|]. split; [reflexivity|].
  split; [|reflexivity].
  right. exists undetermined. repeat split. discriminate.
Defined.

Lemma push_cue_never_alerts_witness :
  step PushReceived Example.fresh
  = Some (exec on_notification_received Example.fresh).
Proof.
  destruct (push_cue_never_alerts Example.fresh true) as (H & _).
  - reflexivity.
  - exact H.
Defined.


Lemma cancelled_delete_all_changes_nothing_witness :
  store (exec skip (with_pending (pending Example.loaded)
                      (exec deleteAllNotifications Example.loaded)))
  = store Example.loaded.
Proof.
  destruct (cancelled_delete_all_changes_nothing Example.loaded)
    as (_ & _ & H & _).
  - reflexivity.
  - vm_compute. lia.
  - exact H.
Defined.

Lemma render_offers_what_the_steps_accept_witness :
  is_Some (step PressDeleteAll Example.loaded) ↔
  delete_icon (render (comp Example.loaded)) = true.
Proof.
  destruct (render_offers_what_the_steps_accept Example.loaded) as (_ & H & _).
  - reflexivity.
  - exact H.
Defined.

Lemma rendered_cards_have_distinct_keys_witness :
  NoDup (key <$> cards (render (comp Example.loaded))).
Proof.
  apply (rendered_cards_have_distinct_keys Example.remote Example.loaded).
  exists [Settle_task 2 (FulfilledUser "u@x"); Settle_task 2 Fulfilled].
  vm_compute. reflexivity.
Defined.


Lemma late_fetch_replays_unloaded_sound_witness :
  emitted Scenario.fetching
    (exec (fetchNotifications_resume 0 "u@x" true)
       (with_pending [AwaitRegister] (exec unmount Scenario.fetching)))
  = [UnloadAsync; RemoveListener; ReplayAsync].
Proof.
  destruct (late_fetch_replays_unloaded_sound Scenario.fetching
              [AwaitRegister] "u@x" 0 NotificationMp3) as (_ & _ & H).
  - reflexivity.
  - reflexivity.
  - reflexivity.
  - vm_compute. lia.
  - exact H.
Defined.
